(** * FontRenderer: a shallow embedding of [main.cpp]

    The program renders the glyphs of a range of 8-bit character codes in
    one or more fonts and prints them as a C++ array literal.  The Qt font
    engine (metrics and rasterisation) is outside the program; it enters the
    development as a record of functions.  Standard output is the list of
    chunks that were closed by [std::endl], in the order they were written. *)

From Stdlib Require Import ZArith Lia Ascii String DecimalString DecimalPos.
From stdpp Require Import base list list_numbers strings.

Local Open Scope Z_scope.

(** ** Machine integers *)

Module Int.

(** [uint8_t]: values are kept modulo 2^8. *)
Definition wrap_uint8 (z : Z) : Z := z mod 256.

(** [int] is 32 bits wide (two's complement). *)
Definition INT_MAX : Z := 2147483647.
Definition INT_MIN : Z := -2147483648.
Definition wrap_int (z : Z) : Z := (z + 2147483648) mod 4294967296 - 2147483648.

(** [unsigned long] is 64 bits wide (LP64). *)
Definition ULONG_MAX : Z := 18446744073709551615.
Definition wrap_ulong (z : Z) : Z := z mod 18446744073709551616.

Definition in_int (z : Z) : Prop := INT_MIN <= z <= INT_MAX.

End Int.

(** ** Colours *)

(** A [QRgb] is an [unsigned int] laid out as 0xAARRGGBB. *)
Definition QRgb := Z.

(** Qt's [qRgba (r, g, b, a)]: four 8-bit channels packed into a [QRgb]. *)
Definition qRgba (r g b a : Z) : QRgb :=
  Z.lor (Z.lor (Z.shiftl (Z.land a 255) 24) (Z.shiftl (Z.land r 255) 16))
        (Z.lor (Z.shiftl (Z.land g 255) 8) (Z.land b 255)).

(** [Qt::black] and [Qt::white], the fill and pen colours, as pixels. *)
Definition black : QRgb := 0xFF000000.
Definition white : QRgb := 0xFFFFFFFF.

(** [normalize], lines 78-84.  The channels are narrowed to [uint8_t], the
    arithmetic of the return statement is done in [int], and [/] on [int]
    truncates towards zero.  The product is written with the wrap-around of
    a 32-bit machine; [Int.in_int] says when it stays clear of it. *)
Definition normalize (color : QRgb) (ceiling : Z) : Z :=
  let red := Int.wrap_uint8 (Z.shiftr (Z.land color 0x00FF0000) 16) in
  let green := Int.wrap_uint8 (Z.shiftr (Z.land color 0x0000FF00) 8) in
  let blue := Int.wrap_uint8 (Z.land color 0x000000FF) in
  Z.quot (Int.wrap_int ((red + green + blue) * ceiling)) (3 * 0xFF).

(** ** The character string *)

(** [getCharacters], lines 44-52.  A [QString] is the list of its character
    codes.  The counter [c] is a [uint8_t], so [++c] wraps; the loop may
    therefore fail to exit, and the embedding runs it on fuel: one unit per
    evaluation of the loop condition.  Besides the string the function
    reports how many times the body ran. *)
Fixpoint getCharacters_loop (fuel : nat) (to c : Z) (result : list Z) (iterations : nat)
  : option (list Z * nat) :=
  match fuel with
  | O => None
  | S fuel' =>
      if c <=? to
      then getCharacters_loop fuel' to (Int.wrap_uint8 (c + 1)) (result ++ [c]) (S iterations)
      else Some (result, iterations)
  end.

Definition getCharacters (fuel : nat) (from to : Z) : option (list Z) :=
  fst <$> getCharacters_loop fuel to from [] O.

(** ** Text *)

Definition dquote : string := String "034"%char EmptyString.

(** [indent], lines 91-94; it is only ever called with the literals 1 to 5. *)
Definition indent (tabs : nat) : string :=
  string_of_list_ascii (replicate tabs "009"%char).

(** What [operator<<] prints for an [int]. *)
Definition show_int (z : Z) : string := NilZero.string_of_int (Z.to_int z).

Fixpoint concat_strings (l : list string) : string :=
  match l with
  | [] => EmptyString
  | s :: l' => s +:+ concat_strings l'
  end.

(** The bytes that reach the terminal: every chunk followed by a newline. *)
Definition render (out : list string) : string :=
  concat_strings ((fun chunk => chunk +:+ String "010"%char EmptyString) <$> out).

(** [openFontArray], lines 101-106, and [closeFontArray], lines 111-114. *)
Definition openFontArray (type name : string) : list string :=
  [type +:+ " " +:+ name +:+ " = "; "{"].

Definition closeFontArray : list string := ["};"].

(** ** The font engine *)

(** [QFont font(name, size)]. *)
Record QFont := { family : string; pointSize : Z }.

(** What the program asks of Qt: the height of a font, the advance width of
    a character, and the pixel at [(x, y)] of the image obtained by filling
    the pixmap with black and drawing the character in white at
    [(0, overlinePos - 1)]. *)
Record Engine := {
  metrics_height : QFont -> Z;
  metrics_width : QFont -> Z -> Z;
  image_pixel : QFont -> Z -> Z -> Z -> QRgb
}.

Module FontDesc.
Record t := { name : string; size : Z; from : Z; to : Z }.
Definition set_name (desc : t) (s : string) : t :=
  {| name := s; size := size desc; from := from desc; to := to desc |}.
Definition set_size (desc : t) (n : Z) : t :=
  {| name := name desc; size := n; from := from desc; to := to desc |}.
End FontDesc.

(** ** Rendering one font *)

(** The inner loop of lines 157-159: the intensities of row [y]. *)
Definition pixelRow (e : Engine) (font : QFont) (c width y : Z) : list Z :=
  (fun x => normalize (image_pixel e font c x y) 255) <$> seqZ 0 width.

(** The loop of lines 155-161: the rows of one character. *)
Definition bitmapRows (e : Engine) (font : QFont) (c width height : Z) : list (list Z) :=
  (fun y => pixelRow e font c width y) <$> seqZ 0 height.

(** One row as printed: the indentation, then every value followed by a
    comma. *)
Definition rowChunk (cells : list Z) : string :=
  indent 5 +:+ concat_strings ((fun v => show_int v +:+ ",") <$> cells).

(** The body of the loop over [characters], lines 143-165. *)
Definition characterEntry (e : Engine) (font : QFont) (height c : Z) : list string :=
  let width := metrics_width e font c in
  [indent 3 +:+ "{"; indent 4 +:+ show_int width +:+ ","; indent 4 +:+ "{"]
  ++ (rowChunk <$> bitmapRows e font c width height)
  ++ [indent 4 +:+ "}"; indent 3 +:+ "},"].

(** The chunk written before the characters, lines 135-141. *)
Definition fontHeader (desc : FontDesc.t) (height : Z) : list string :=
  [indent 1 +:+ "{";
   indent 2 +:+ dquote +:+ FontDesc.name desc +:+ dquote +:+ ",";
   indent 2 +:+ show_int (FontDesc.size desc) +:+ ",";
   indent 2 +:+ show_int height +:+ ",";
   indent 2 +:+ show_int (FontDesc.from desc) +:+ ",";
   indent 2 +:+ show_int (FontDesc.to desc) +:+ ",";
   indent 2 +:+ "{"].

(** The two chunks written after the characters, lines 167-168. *)
Definition fontFooter : list string := [indent 2 +:+ "}"; indent 1 +:+ "}"].

(** [appendFontBitmap], lines 123-169. *)
Definition appendFontBitmap (e : Engine) (characters : list Z) (font : QFont)
    (desc : FontDesc.t) : list string :=
  let height := metrics_height e font in
  fontHeader desc height
  ++ concat ((fun c => characterEntry e font height c) <$> characters)
  ++ fontFooter.

(** ** [std::stoul] *)

(** The conversion of the C++ library, base 10: white space is skipped, one
    sign is accepted, the longest run of digits is read and the rest of the
    string is ignored.  No digit at all raises [std::invalid_argument]; a
    magnitude above [ULONG_MAX] raises [std::out_of_range]; a minus sign
    negates the value in [unsigned long]. *)
Inductive exception := invalid_argument | out_of_range.

Definition isspace (c : ascii) : bool :=
  let n := N_of_ascii c in ((n =? 32) || ((9 <=? n) && (n <=? 13)))%N.

Definition isdigit (c : ascii) : bool :=
  let n := N_of_ascii c in ((48 <=? n) && (n <=? 57))%N.

Definition digit_value (c : ascii) : Z := Z.of_N (N_of_ascii c) - 48.

Fixpoint skip_spaces (s : string) : string :=
  match s with
  | String c rest => if isspace c then skip_spaces rest else s
  | EmptyString => s
  end.

Fixpoint leading_digits (s : string) : list Z :=
  match s with
  | String c rest => if isdigit c then digit_value c :: leading_digits rest else []
  | EmptyString => []
  end.

Definition numeral_value (digits : list Z) : Z :=
  fold_left (fun acc d => acc * 10 + d) digits 0.

Definition split_sign (s : string) : bool * string :=
  match s with
  | String "-"%char rest => (true, rest)
  | String "+"%char rest => (false, rest)
  | _ => (false, s)
  end.

Definition stoul (str : string) : exception + Z :=
  let '(negative, s) := split_sign (skip_spaces str) in
  match leading_digits s with
  | [] => inl invalid_argument
  | digits =>
      let v := numeral_value digits in
      if v >? Int.ULONG_MAX then inl out_of_range
      else inr (if negative then Int.wrap_ulong (- v) else v)
  end.

(** ** [main] *)

Definition EXIT_SUCCESS : Z := 0.
Definition EXIT_FAILURE : Z := 1.

(** How a run ends: [main] returns a status, or an exception of
    [std::stoul] leaves [main] and the process is terminated.  Either way
    [out] is what was printed.  Failures of the machine (an allocation that
    cannot be served) are not among these outcomes. *)
Inductive outcome :=
| Exited (status : Z) (out : list string)
| Terminated (e : exception) (out : list string).

Definition usage (program : string) : string :=
  "Basic usage: " +:+ program +:+ " [ascii-from] [ascii-to] "
  +:+ "[cpp-type] [arr-name] [[font-name] [font-size] ..]".

(** One turn of the loop of lines 211-228 on the argument [arg]: the new
    descriptor and what was printed, or the exception that is not caught. *)
Definition sequencer_step (e : Engine) (characters : list Z) (desc : FontDesc.t)
    (arg : string) : exception + (FontDesc.t * list string) :=
  match stoul arg with
  | inr number =>
      let desc := FontDesc.set_size desc (Int.wrap_int number) in
      if decide (FontDesc.name desc = EmptyString)
      then inr (desc, [])
      else
        let font := {| family := FontDesc.name desc; pointSize := FontDesc.size desc |} in
        inr (desc, appendFontBitmap e characters font desc)
  | inl invalid_argument => inr (FontDesc.set_name desc arg, [])
  | inl out_of_range => inl out_of_range
  end.

(** The loop of lines 211-228 over the remaining arguments. *)
Fixpoint sequencer (e : Engine) (characters : list Z) (args : list string)
    (desc : FontDesc.t) (out : list string) : exception * list string + FontDesc.t * list string :=
  match args with
  | [] => inr (desc, out)
  | arg :: args' =>
      match sequencer_step e characters desc arg with
      | inl exn => inl (exn, out)
      | inr (desc', printed) => sequencer e characters args' desc' (out ++ printed)
      end
  end.

Definition argv_at (argv : list string) (i : nat) : string := nth i argv EmptyString.

(** The narrowing of lines 198-199. *)
Definition to_code (n : Z) : Z := if n <=? 255 then Int.wrap_uint8 n else 0.

(** Lines 197-232 of [main]: what happens once [from] and [to] have been
    parsed, starting with the range check.  [None] means that [main] never
    returns: the fuel handed to [getCharacters] ran out.  When [to] is 255
    this is so on every fuel; the program then goes on appending to the
    string for as long as the machine lets the string grow, and nothing is
    printed. *)
Definition main_after_parse (fuel : nat) (e : Engine) (argv : list string) (from to : Z)
  : option outcome :=
  let desc := {| FontDesc.name := EmptyString; FontDesc.size := 0;
                 FontDesc.from := to_code from; FontDesc.to := to_code to |} in
  if FontDesc.from desc >? FontDesc.to desc then Some (Exited EXIT_FAILURE [])
  else
    match getCharacters fuel (FontDesc.from desc) (FontDesc.to desc) with
    | None => None
    | Some characters =>
        let out := openFontArray (argv_at argv 3) (argv_at argv 4) in
        match sequencer e characters (drop 5 argv) desc out with
        | inl (exn, out) => Some (Terminated exn out)
        | inr (_, out) => Some (Exited EXIT_SUCCESS (out ++ closeFontArray))
        end
    end.

(** [main], lines 180-233. *)
Definition main (fuel : nat) (e : Engine) (argv : list string) : option outcome :=
  let argc := Z.of_nat (length argv) in
  if argc <? 7 then Some (Exited EXIT_FAILURE [usage (argv_at argv 0)])
  else
    match stoul (argv_at argv 1) with
    | inl exn => Some (Terminated exn [])
    | inr from =>
        match stoul (argv_at argv 2) with
        | inl exn => Some (Terminated exn [])
        | inr to => main_after_parse fuel e argv from to
        end
    end.

(** ** Notions the specification uses *)

(** A string that begins with a decimal numeral within [unsigned long]:
    its first character is a digit and the digits it starts with denote a
    value of at most [ULONG_MAX]. *)
Definition begins_with_numeral (s : string) : Prop :=
  leading_digits s <> [] /\ numeral_value (leading_digits s) <= Int.ULONG_MAX.

(** The same after white space and one sign have been set aside. *)
Definition numeral_after_sign (s : string) : Prop :=
  begins_with_numeral (snd (split_sign (skip_spaces s))).

(** A token of the font list is a name when no numeral can be read from it. *)
Definition name_token (tok : string) : Prop := stoul tok = inl invalid_argument.

(** A token is the size [n] when it reads as the positive integer [n] and
    [n] is a value of [int]. *)
Definition size_token (tok : string) (n : Z) : Prop :=
  stoul tok = inr n /\ 0 < n <= Int.INT_MAX.

(** The specification's sequencing rule, applied to the tokens from left to
    right: a name token becomes the current name, a size token yields the
    pair of the current name and the size unless the current name is empty.
    The result is the list of (name, size) pairs to render, in order. *)
Fixpoint tables_by_rule (tokens : list string) (current : string) : list (string * Z) :=
  match tokens with
  | [] => []
  | tok :: rest =>
      match stoul tok with
      | inr n =>
          if decide (current = EmptyString) then tables_by_rule rest current
          else (current, n) :: tables_by_rule rest current
      | inl _ => tables_by_rule rest tok
      end
  end.

(** How often a character occurs in a string; every cell of a printed row
    ends in a comma, so the commas of a row count its cells. *)
Fixpoint count_char (a : ascii) (s : string) : nat :=
  match s with
  | EmptyString => O
  | String c rest => ((if Ascii.eqb c a then 1 else 0) + count_char a rest)%nat
  end.

(** The Font Table of one (name, size) pair for the range [from]..[to]. *)
Definition font_table (e : Engine) (characters : list Z) (from to : Z)
    (entry : string * Z) : list string :=
  appendFontBitmap e characters {| family := entry.1; pointSize := entry.2 |}
    {| FontDesc.name := entry.1; FontDesc.size := entry.2;
       FontDesc.from := from; FontDesc.to := to |}.

(** ** A small engine to run the program on *)

(** A font is [pointSize mod 4] pixels tall, character [c] is [c mod 3]
    pixels wide, and the image is a checkerboard of white and black. *)
Definition demo : Engine := {|
  metrics_height := fun font => pointSize font mod 4;
  metrics_width := fun _ c => c mod 3;
  image_pixel := fun _ _ x y => if Z.even (x + y) then white else black
|}.

(** ** Facts about the machine integers *)

Lemma wrap_int_id z : Int.in_int z -> Int.wrap_int z = z.
Proof.
  unfold Int.in_int, Int.wrap_int, Int.INT_MIN, Int.INT_MAX.
  intros Hz. rewrite Z.mod_small; lia.
Qed.

Lemma wrap_uint8_id z : 0 <= z <= 255 -> Int.wrap_uint8 z = z.
Proof. unfold Int.wrap_uint8. intros Hz. apply Z.mod_small. lia. Qed.

Lemma wrap_uint8_range z : 0 <= Int.wrap_uint8 z <= 255.
Proof. unfold Int.wrap_uint8. pose proof (Z.mod_pos_bound z 256). lia. Qed.

(** ** Facts about colours *)

(** Bits of a number below [2^n] and bits of a multiple of [2^n] never meet. *)
Lemma land_shifted_low hi lo n :
  0 <= n -> 0 <= lo < 2 ^ n -> Z.land (Z.shiftl hi n) lo = 0.
Proof.
  intros Hn Hlo. apply Z.bits_inj'. intros k Hk.
  rewrite Z.land_spec, Z.bits_0.
  destruct (Z.lt_ge_cases k n) as [Hlt|Hge].
  - rewrite Z.shiftl_spec_low by lia. reflexivity.
  - destruct (Z.eq_dec lo 0) as [->|Hne]; [rewrite Z.bits_0; apply andb_false_r|].
    rewrite (Z.bits_above_log2 lo k); [apply andb_false_r|lia|].
    apply Z.log2_lt_pow2; [lia|].
    apply Z.lt_le_trans with (2 ^ n); [lia|]. apply Z.pow_le_mono_r; lia.
Qed.

Lemma lor_shifted_low hi lo n :
  0 <= n -> 0 <= lo < 2 ^ n -> Z.lor (hi * 2 ^ n) lo = hi * 2 ^ n + lo.
Proof.
  intros Hn Hlo. rewrite <- Z.shiftl_mul_pow2 by lia.
  pose proof (land_shifted_low hi lo n Hn Hlo) as Hdisj.
  rewrite <- Z.lxor_lor by exact Hdisj.
  symmetry. apply Z.add_nocarry_lxor. exact Hdisj.
Qed.

Lemma qRgba_split r g b a :
  0 <= r <= 255 -> 0 <= g <= 255 -> 0 <= b <= 255 -> 0 <= a <= 255 ->
  qRgba r g b a = a * 16777216 + r * 65536 + g * 256 + b.
Proof.
  intros Hr Hg Hb Ha. unfold qRgba.
  change 255 with (Z.ones 8). rewrite !Z.land_ones by lia.
  rewrite !Z.mod_small by (change (2 ^ 8) with 256; lia).
  rewrite !Z.shiftl_mul_pow2 by lia.
  rewrite (lor_shifted_low g b 8) by (change (2 ^ 8) with 256; lia).
  rewrite (lor_shifted_low a (r * 2 ^ 16) 24)
    by (change (2 ^ 24) with 16777216; change (2 ^ 16) with 65536; lia).
  replace (a * 2 ^ 24 + r * 2 ^ 16) with ((a * 256 + r) * 2 ^ 16)
    by (change (2 ^ 24) with 16777216; change (2 ^ 16) with 65536; lia).
  rewrite (lor_shifted_low (a * 256 + r) (g * 2 ^ 8 + b) 16)
    by (change (2 ^ 16) with 65536; change (2 ^ 8) with 256; lia).
  change (2 ^ 16) with 65536; change (2 ^ 8) with 256. lia.
Qed.

(** The three masks and shifts of [normalize] read the channels back. *)
Lemma normalize_channels color ceiling :
  0 <= color ->
  normalize color ceiling =
    Z.quot (Int.wrap_int ((color / 65536 mod 256 + color / 256 mod 256 + color mod 256) * ceiling))
           765.
Proof.
  intros Hc. unfold normalize.
  rewrite !Z.shiftr_land.
  change (Z.shiftr 0x00FF0000 16) with (Z.ones 8).
  change (Z.shiftr 0x0000FF00 8) with (Z.ones 8).
  change 0x000000FF with (Z.ones 8).
  rewrite !Z.land_ones by lia. rewrite !Z.shiftr_div_pow2 by lia.
  change (2 ^ 16) with 65536. change (2 ^ 8) with 256.
  unfold Int.wrap_uint8. rewrite !Z.mod_mod by lia. reflexivity.
Qed.

Lemma normalize_qRgba r g b a ceiling :
  0 <= r <= 255 -> 0 <= g <= 255 -> 0 <= b <= 255 -> 0 <= a <= 255 ->
  normalize (qRgba r g b a) ceiling = Z.quot (Int.wrap_int ((r + g + b) * ceiling)) 765.
Proof.
  intros Hr Hg Hb Ha. rewrite qRgba_split by assumption.
  rewrite normalize_channels by lia.
  set (color := a * 16777216 + r * 65536 + g * 256 + b).
  assert (Hhi : color / 65536 = a * 256 + r)
    by (symmetry; apply (Z.div_unique _ _ _ (g * 256 + b)); subst color; lia).
  assert (Hmid : color / 256 = a * 65536 + r * 256 + g)
    by (symmetry; apply (Z.div_unique _ _ _ b); subst color; lia).
  rewrite Hhi, Hmid.
  rewrite <- (Z.mod_unique (a * 256 + r) 256 a r) by lia.
  rewrite <- (Z.mod_unique (a * 65536 + r * 256 + g) 256 (a * 256 + r) g) by lia.
  rewrite <- (Z.mod_unique color 256 (a * 65536 + r * 256 + g) b) by (subst color; lia).
  reflexivity.
Qed.

Lemma normalize_qRgba_255 r g b a :
  0 <= r <= 255 -> 0 <= g <= 255 -> 0 <= b <= 255 -> 0 <= a <= 255 ->
  normalize (qRgba r g b a) 255 = (r + g + b) * 255 / 765.
Proof.
  intros Hr Hg Hb Ha. rewrite normalize_qRgba by assumption.
  rewrite wrap_int_id by (unfold Int.in_int, Int.INT_MIN, Int.INT_MAX; lia).
  apply Z.quot_div_nonneg; lia.
Qed.


(** ** Facts about [getCharacters] *)

(** Below 255 the counter never wraps: [k] characters are left, and the
    loop leaves after [k] turns provided the fuel covers the [k + 1]
    evaluations of its condition. *)
Lemma getCharacters_loop_exits (to : Z) (k : nat) :
  to <= 254 ->
  forall (c : Z) (result : list Z) (iterations fuel : nat),
    0 <= c -> c + Z.of_nat k = to + 1 -> (k < fuel)%nat ->
    getCharacters_loop fuel to c result iterations
    = Some (result ++ seqZ c (Z.of_nat k), (iterations + k)%nat).
Proof.
  intros Hto. induction k as [|k IH]; intros c result iterations fuel Hc Hk Hfuel.
  - destruct fuel as [|fuel]; [lia|]. simpl.
    destruct (Z.leb_spec c to); [lia|].
    rewrite seqZ_nil by lia. rewrite app_nil_r, Nat.add_0_r. reflexivity.
  - destruct fuel as [|fuel]; [lia|]. simpl.
    destruct (Z.leb_spec c to); [|lia].
    rewrite wrap_uint8_id by lia.
    rewrite IH by lia.
    rewrite (seqZ_cons c (Z.of_nat (S k))) by lia.
    rewrite <- app_assoc. simpl.
    replace (Z.pred (Z.of_nat (S k))) with (Z.of_nat k) by lia.
    replace (Z.succ c) with (c + 1) by lia.
    do 2 f_equal. lia.
Qed.

(** With less fuel than that the loop is still running. *)
Lemma getCharacters_loop_running (to : Z) (k : nat) :
  to <= 254 ->
  forall (c : Z) (result : list Z) (iterations fuel : nat),
    0 <= c -> c + Z.of_nat k = to + 1 -> (fuel <= k)%nat ->
    getCharacters_loop fuel to c result iterations = None.
Proof.
  intros Hto. induction k as [|k IH]; intros c result iterations fuel Hc Hk Hfuel.
  - destruct fuel as [|fuel]; [reflexivity|lia].
  - destruct fuel as [|fuel]; [reflexivity|]. simpl.
    destruct (Z.leb_spec c to); [|lia].
    rewrite wrap_uint8_id by lia. apply IH; lia.
Qed.

(** When [to] is 255 the condition [c <= to] holds for every value of the
    counter, so no amount of fuel lets the loop leave. *)
Lemma getCharacters_loop_255 (fuel : nat) :
  forall (c : Z) (result : list Z) (iterations : nat),
    0 <= c <= 255 -> getCharacters_loop fuel 255 c result iterations = None.
Proof.
  induction fuel as [|fuel IH]; intros c result iterations Hc; [reflexivity|].
  simpl. destruct (Z.leb_spec c 255); [|lia].
  apply IH. apply wrap_uint8_range.
Qed.

Lemma getCharacters_closed_interval (fuel : nat) (from to : Z) :
  0 <= from -> from <= to -> to <= 254 -> (Z.to_nat (to - from + 1) < fuel)%nat ->
  getCharacters fuel from to = Some (seqZ from (to - from + 1)).
Proof.
  intros Hfrom Hle Hto Hfuel. unfold getCharacters.
  rewrite (getCharacters_loop_exits to (Z.to_nat (to - from + 1))) by lia.
  simpl. rewrite Z2Nat.id by lia. reflexivity.
Qed.

Lemma getCharacters_255 (fuel : nat) (from : Z) :
  0 <= from <= 255 -> getCharacters fuel from 255 = None.
Proof.
  intros Hfrom. unfold getCharacters. rewrite getCharacters_loop_255 by lia. reflexivity.
Qed.

(** ** Facts about [std::stoul] *)

Lemma leading_digits_range (s : string) :
  Forall (fun d => 0 <= d <= 9) (leading_digits s).
Proof.
  induction s as [|c rest IH]; simpl; [constructor|].
  destruct (isdigit c) eqn:Hc; [|constructor].
  constructor; [|exact IH].
  unfold isdigit in Hc. unfold digit_value.
  apply andb_true_iff in Hc as [Hlo Hhi].
  apply N.leb_le in Hlo, Hhi. lia.
Qed.

Lemma fold_digits_nonneg (digits : list Z) :
  Forall (fun d => 0 <= d <= 9) digits ->
  forall acc, 0 <= acc -> 0 <= fold_left (fun acc d => acc * 10 + d) digits acc.
Proof.
  induction 1 as [|d digits Hd _ IH]; intros acc Hacc; simpl; [exact Hacc|].
  apply IH. lia.
Qed.

Lemma numeral_value_nonneg (s : string) : 0 <= numeral_value (leading_digits s).
Proof. apply fold_digits_nonneg; [apply leading_digits_range|lia]. Qed.

(** [stoul] returns exactly on the strings that carry a numeral within
    range after white space and a sign. *)
Lemma stoul_returns (s : string) :
  numeral_after_sign s -> exists n, stoul s = inr n.
Proof.
  unfold numeral_after_sign, begins_with_numeral, stoul.
  destruct (split_sign (skip_spaces s)) as [negative s']. simpl.
  intros [Hdigits Hvalue].
  destruct (leading_digits s') as [|d digits] eqn:Heq; [congruence|].
  destruct (Z.gtb_spec (numeral_value (d :: digits)) Int.ULONG_MAX); [lia|].
  eexists. reflexivity.
Qed.

Lemma stoul_throws (s : string) :
  ~ numeral_after_sign s -> exists exn, stoul s = inl exn.
Proof.
  unfold numeral_after_sign, begins_with_numeral, stoul.
  destruct (split_sign (skip_spaces s)) as [negative s']. simpl.
  intros Hnot.
  destruct (leading_digits s') as [|d digits] eqn:Heq; [eexists; reflexivity|].
  destruct (Z.gtb_spec (numeral_value (d :: digits)) Int.ULONG_MAX); [eexists; reflexivity|].
  exfalso. apply Hnot. split; [discriminate|lia].
Qed.

Lemma stoul_value_numeral (s : string) (n : Z) :
  stoul s = inr n -> numeral_after_sign s.
Proof.
  unfold numeral_after_sign, begins_with_numeral, stoul.
  destruct (split_sign (skip_spaces s)) as [negative s']. simpl.
  destruct (leading_digits s') as [|d digits] eqn:Heq; [discriminate|].
  destruct (Z.gtb_spec (numeral_value (d :: digits)) Int.ULONG_MAX); [discriminate|].
  intros _. split; [discriminate|lia].
Qed.

(** The value is one of [unsigned long]. *)
Lemma stoul_range (s : string) (n : Z) : stoul s = inr n -> 0 <= n <= Int.ULONG_MAX.
Proof.
  unfold stoul. destruct (split_sign (skip_spaces s)) as [negative s'].
  pose proof (numeral_value_nonneg s') as Hnonneg.
  destruct (leading_digits s') as [|d digits]; [discriminate|].
  destruct (Z.gtb_spec (numeral_value (d :: digits)) Int.ULONG_MAX) as [|Hle]; [discriminate|].
  intros [= <-]. destruct negative; [|lia].
  unfold Int.wrap_ulong, Int.ULONG_MAX.
  pose proof (Z.mod_pos_bound (- numeral_value (d :: digits)) 18446744073709551616). lia.
Qed.

(** A digit is neither white space nor a sign. *)
Lemma digit_first (c : ascii) (rest : string) :
  isdigit c = true ->
  split_sign (skip_spaces (String c rest)) = (false, String c rest).
Proof.
  destruct c as [b0 b1 b2 b3 b4 b5 b6 b7].
  destruct b0, b1, b2, b3, b4, b5, b6, b7; try discriminate; intros _; reflexivity.
Qed.

Lemma begins_with_numeral_after_sign (s : string) :
  begins_with_numeral s -> numeral_after_sign s.
Proof.
  intros Hs. unfold numeral_after_sign.
  destruct s as [|c rest]; [destruct Hs as [Hd _]; simpl in Hd; congruence|].
  destruct (isdigit c) eqn:Hc.
  - rewrite digit_first by exact Hc. exact Hs.
  - destruct Hs as [Hd _]. simpl in Hd. rewrite Hc in Hd. congruence.
Qed.

(** ** Facts about the coercion of the range *)

Lemma to_code_cases (n : Z) :
  0 <= n -> to_code n = if n <=? 255 then n else 0.
Proof.
  intros Hn. unfold to_code. destruct (Z.leb_spec n 255); [|reflexivity].
  apply wrap_uint8_id. lia.
Qed.

Lemma to_code_range (n : Z) : 0 <= to_code n <= 255.
Proof.
  unfold to_code. destruct (Z.leb_spec n 255); [apply wrap_uint8_range|lia].
Qed.

(** ** Facts about [main] *)

Lemma argc_at_least_7 (argv : list string) :
  (7 <= length argv)%nat -> (Z.of_nat (length argv) <? 7) = false.
Proof. intros H. apply Z.ltb_ge. lia. Qed.

Lemma main_parsed (fuel : nat) (e : Engine) (argv : list string) (from to : Z) :
  (7 <= length argv)%nat ->
  stoul (argv_at argv 1) = inr from -> stoul (argv_at argv 2) = inr to ->
  main fuel e argv = main_after_parse fuel e argv from to.
Proof.
  intros Hargc Hfrom Hto. unfold main.
  rewrite argc_at_least_7 by exact Hargc. rewrite Hfrom, Hto. reflexivity.
Qed.

(** ** Facts about the sequencer *)

Lemma sequencer_step_name (e : Engine) (characters : list Z) (desc : FontDesc.t)
    (tok : string) :
  name_token tok ->
  sequencer_step e characters desc tok = inr (FontDesc.set_name desc tok, []).
Proof. unfold name_token, sequencer_step. intros ->. reflexivity. Qed.

Lemma sequencer_step_ignored (e : Engine) (characters : list Z) (desc : FontDesc.t)
    (tok : string) (n : Z) :
  stoul tok = inr n -> FontDesc.name desc = EmptyString ->
  sequencer_step e characters desc tok = inr (FontDesc.set_size desc (Int.wrap_int n), []).
Proof.
  unfold sequencer_step. intros -> Hname. simpl.
  destruct (decide (FontDesc.name desc = EmptyString)); [reflexivity|contradiction].
Qed.

Lemma sequencer_step_table (e : Engine) (characters : list Z) (desc : FontDesc.t)
    (tok : string) (n : Z) :
  size_token tok n -> FontDesc.name desc <> EmptyString ->
  sequencer_step e characters desc tok
  = inr (FontDesc.set_size desc n,
         font_table e characters (FontDesc.from desc) (FontDesc.to desc)
           (FontDesc.name desc, n)).
Proof.
  unfold size_token, sequencer_step. intros [-> Hn] Hname.
  rewrite wrap_int_id by (unfold Int.in_int, Int.INT_MIN; lia). simpl.
  destruct (decide (FontDesc.name desc = EmptyString)); [contradiction|reflexivity].
Qed.

(** The range of the descriptor is never touched. *)
Lemma sequencer_step_range (e : Engine) (characters : list Z) (desc desc' : FontDesc.t)
    (tok : string) (printed : list string) :
  sequencer_step e characters desc tok = inr (desc', printed) ->
  FontDesc.from desc' = FontDesc.from desc /\ FontDesc.to desc' = FontDesc.to desc.
Proof.
  unfold sequencer_step. destruct (stoul tok) as [[]|number]; [|discriminate|].
  - intros [= <- _]. split; reflexivity.
  - simpl. destruct (decide _); intros [= <- _]; split; reflexivity.
Qed.

Lemma sequencer_cons (e : Engine) (characters : list Z) (arg : string)
    (args : list string) (desc desc' : FontDesc.t) (printed out : list string) :
  sequencer_step e characters desc arg = inr (desc', printed) ->
  sequencer e characters (arg :: args) desc out
  = sequencer e characters args desc' (out ++ printed).
Proof. intros Hstep. simpl. rewrite Hstep. reflexivity. Qed.

(** One name followed by sizes only: one pair per size, all under that
    name, whatever the name was before. *)
Lemma tables_by_rule_sizes (tokens : list string) (sizes : list Z) (current : string) :
  current <> EmptyString ->
  Forall2 size_token tokens sizes ->
  tables_by_rule tokens current = (fun n => (current, n)) <$> sizes.
Proof.
  intros Hcur. induction 1 as [|tok n tokens sizes [Htok _] _ IH]; [reflexivity|].
  simpl. rewrite Htok. destruct (decide (current = EmptyString)); [contradiction|].
  rewrite IH. reflexivity.
Qed.

Lemma tables_by_rule_one_name (nm previous : string) (tokens : list string)
    (sizes : list Z) :
  name_token nm -> nm <> EmptyString ->
  Forall2 size_token tokens sizes ->
  tables_by_rule (nm :: tokens) previous = (fun n => (nm, n)) <$> sizes.
Proof.
  intros Hname Hnm Hsizes. simpl. unfold name_token in Hname. rewrite Hname.
  apply tables_by_rule_sizes; assumption.
Qed.

(** ** Facts about the shape of a Font Table *)

Lemma length_pixelRow (e : Engine) (font : QFont) (c width y : Z) :
  length (pixelRow e font c width y) = Z.to_nat width.
Proof. unfold pixelRow. rewrite length_fmap. apply length_seqZ. Qed.

Lemma length_bitmapRows (e : Engine) (font : QFont) (c width height : Z) :
  length (bitmapRows e font c width height) = Z.to_nat height.
Proof. unfold bitmapRows. rewrite length_fmap. apply length_seqZ. Qed.

Lemma bitmapRows_rows (e : Engine) (font : QFont) (c width height : Z) :
  Forall (fun row => length row = Z.to_nat width) (bitmapRows e font c width height).
Proof.
  unfold bitmapRows. apply Forall_fmap, Forall_forall. intros y _. simpl.
  apply length_pixelRow.
Qed.

Lemma bitmapRows_zero_width (e : Engine) (font : QFont) (c height : Z) :
  bitmapRows e font c 0 height = replicate (Z.to_nat height) [].
Proof.
  unfold bitmapRows, pixelRow. rewrite (seqZ_nil 0 0) by lia. simpl.
  rewrite <- (length_seqZ 0 height).
  induction (seqZ 0 height) as [|y ys IH]; [reflexivity|].
  rewrite fmap_cons. simpl. f_equal. exact IH.
Qed.

Lemma last_appendFontBitmap (e : Engine) (characters : list Z) (font : QFont)
    (desc : FontDesc.t) :
  last (appendFontBitmap e characters font desc) = Some (indent 1 +:+ "}").
Proof.
  unfold appendFontBitmap, fontFooter. rewrite !app_assoc.
  rewrite (last_app _ [indent 2 +:+ "}"; indent 1 +:+ "}"]). reflexivity.
Qed.

(** * The claims *)

(** C3.  For every pixel sample whose red, green and blue channels lie in
    0..255, [normalize] with ceiling 255 returns
    [floor ((red + green + blue) * 255 / (3 * 255))], a value between 0 and
    the ceiling; the [int] arithmetic that computes it does not overflow, so
    there is no error condition. *)
Theorem C3_normalize_formula (r g b a : Z) :
  0 <= r <= 255 -> 0 <= g <= 255 -> 0 <= b <= 255 -> 0 <= a <= 255 ->
  Int.in_int ((r + g + b) * 255)
  /\ normalize (qRgba r g b a) 255 = (r + g + b) * 255 / (3 * 255)
  /\ 0 <= normalize (qRgba r g b a) 255 <= 255.
Proof.
  intros Hr Hg Hb Ha. rewrite normalize_qRgba_255 by assumption.
  split; [unfold Int.in_int, Int.INT_MIN, Int.INT_MAX; lia|].
  split; [reflexivity|].
  split.
  - apply Z.div_pos; lia.
  - apply Z.div_le_upper_bound; lia.
Qed.

Lemma C3_normalize_formula_witness :
  (0 <= 10 <= 255 /\ 0 <= 20 <= 255 /\ 0 <= 33 <= 255 /\ 0 <= 255 <= 255)
  /\ normalize (qRgba 10 20 33 255) 255 = (10 + 20 + 33) * 255 / (3 * 255).
Proof.
  split; [lia|].
  apply (C3_normalize_formula 10 20 33 255); lia.
Defined.

(** C7.  With ceiling 255, [normalize] does not decrease when one of the
    red, green or blue channels is raised and the others are kept; it maps
    the all-zero sample (and Qt's black) to 0 and the all-255 sample (and
    Qt's white) to 255. *)
Theorem C7_normalize_monotone (r g b a x : Z) :
  0 <= r <= 255 -> 0 <= g <= 255 -> 0 <= b <= 255 -> 0 <= a <= 255 -> x <= 255 ->
  (r <= x -> normalize (qRgba r g b a) 255 <= normalize (qRgba x g b a) 255)
  /\ (g <= x -> normalize (qRgba r g b a) 255 <= normalize (qRgba r x b a) 255)
  /\ (b <= x -> normalize (qRgba r g b a) 255 <= normalize (qRgba r g x a) 255)
  /\ normalize (qRgba 0 0 0 a) 255 = 0
  /\ normalize (qRgba 255 255 255 a) 255 = 255
  /\ normalize black 255 = 0
  /\ normalize white 255 = 255.
Proof.
  intros Hr Hg Hb Ha Hx.
  repeat split; try reflexivity.
  - intros Hle. rewrite !normalize_qRgba_255 by lia. apply Z.div_le_mono; lia.
  - intros Hle. rewrite !normalize_qRgba_255 by lia. apply Z.div_le_mono; lia.
  - intros Hle. rewrite !normalize_qRgba_255 by lia. apply Z.div_le_mono; lia.
  - rewrite normalize_qRgba_255 by lia. reflexivity.
  - rewrite normalize_qRgba_255 by lia. reflexivity.
Qed.

Lemma C7_normalize_monotone_witness :
  (0 <= 1 <= 255 /\ 1 <= 2 /\ 2 <= 255)
  /\ normalize (qRgba 1 0 0 255) 255 <= normalize (qRgba 2 0 0 255) 255.
Proof.
  split; [lia|].
  apply (C7_normalize_monotone 1 0 0 255 2); lia.
Defined.

(** C9.  For [0 <= from <= to <= 254] the loop of [getCharacters] leaves
    after exactly [to - from + 1] turns of its body: it returns as soon as
    the fuel covers the [to - from + 2] evaluations of its condition, not
    before, and reports that number of turns.  The bound 254 is needed: for
    [to = 255] the 8-bit counter wraps from 255 to 0, the condition
    [c <= to] never fails and the loop leaves on no amount of fuel. *)
Theorem C9_getCharacters_terminates (from to : Z) (fuel : nat) :
  0 <= from -> from <= to -> to <= 255 ->
  (to <= 254 ->
     getCharacters_loop fuel to from [] 0
     = if decide (Z.to_nat (to - from + 1) < fuel)%nat
       then Some (seqZ from (to - from + 1), Z.to_nat (to - from + 1))
       else None)
  /\ (to = 255 -> getCharacters_loop fuel to from [] 0 = None).
Proof.
  intros Hfrom Hle Hto. split.
  - intros H254. destruct (decide (Z.to_nat (to - from + 1) < fuel)%nat) as [Hfuel|Hfuel].
    + rewrite (getCharacters_loop_exits to (Z.to_nat (to - from + 1))) by lia.
      simpl. rewrite Z2Nat.id by lia. reflexivity.
    + apply (getCharacters_loop_running to (Z.to_nat (to - from + 1))); lia.
  - intros ->. apply getCharacters_loop_255. lia.
Qed.

Lemma C9_getCharacters_terminates_witness :
  (0 <= 65 /\ 65 <= 67 /\ 67 <= 255 /\ 67 <= 254)
  /\ getCharacters_loop 4 67 65 [] 0 = Some ([65; 66; 67], 3%nat).
Proof.
  split; [lia|].
  apply (C9_getCharacters_terminates 65 67 4); lia.
Defined.

(** C6.  With fewer than 7 arguments, the program name included, [main]
    prints the usage line and nothing else, and returns [EXIT_FAILURE],
    which is not zero. *)
Theorem C6_usage_error (fuel : nat) (e : Engine) (argv : list string) :
  (1 <= length argv < 7)%nat ->
  main fuel e argv = Some (Exited EXIT_FAILURE [usage (argv_at argv 0)])
  /\ EXIT_FAILURE <> 0.
Proof.
  intros Hargc. split; [|discriminate].
  unfold main. destruct (Z.ltb_spec (Z.of_nat (length argv)) 7); [reflexivity|lia].
Qed.

Lemma C6_usage_error_witness :
  (1 <= length ["FontRenderer"; "33"; "127"; "uint8_t"] < 7)%nat
  /\ main 0 demo ["FontRenderer"; "33"; "127"; "uint8_t"]
     = Some (Exited 1
         ["Basic usage: FontRenderer [ascii-from] [ascii-to] [cpp-type] [arr-name] [[font-name] [font-size] ..]"]).
Proof.
  split; [simpl; lia|].
  apply (C6_usage_error 0 demo ["FontRenderer"; "33"; "127"; "uint8_t"]). simpl. lia.
Defined.

(** C5.  The [from] and [to] arguments are read as [unsigned long] values;
    a value above 255 becomes 0 and any other is kept.  Whenever the coerced
    [from] exceeds the coerced [to], [main] returns [EXIT_FAILURE] having
    printed nothing, not even the opening line of the array. *)
Theorem C5_invalid_range (fuel : nat) (e : Engine) (argv : list string) (from to : Z) :
  (7 <= length argv)%nat ->
  stoul (argv_at argv 1) = inr from ->
  stoul (argv_at argv 2) = inr to ->
  (0 <= from <= Int.ULONG_MAX /\ 0 <= to <= Int.ULONG_MAX)
  /\ to_code from = (if from <=? 255 then from else 0)
  /\ to_code to = (if to <=? 255 then to else 0)
  /\ (to_code from > to_code to ->
        main fuel e argv = Some (Exited EXIT_FAILURE [])
        /\ EXIT_FAILURE <> 0
        /\ render [] = EmptyString).
Proof.
  intros Hargc Hfrom Hto.
  pose proof (stoul_range _ _ Hfrom) as Hf. pose proof (stoul_range _ _ Hto) as Ht.
  split; [split; assumption|].
  split; [apply to_code_cases; lia|].
  split; [apply to_code_cases; lia|].
  intros Hgt. split; [|split; [discriminate|reflexivity]].
  rewrite (main_parsed fuel e argv from to) by assumption.
  unfold main_after_parse. simpl.
  destruct (Z.gtb_spec (to_code from) (to_code to)); [reflexivity|lia].
Qed.

Lemma C5_invalid_range_witness :
  let argv := ["FontRenderer"; "10"; "5"; "uint8_t"; "font"; "Mono"; "10"] in
  ((7 <= length argv)%nat /\ stoul (argv_at argv 1) = inr 10 /\ stoul (argv_at argv 2) = inr 5
   /\ to_code 10 > to_code 5)
  /\ main 0 demo argv = Some (Exited EXIT_FAILURE []).
Proof.
  split; [repeat split; simpl; lia|].
  apply (C5_invalid_range 0 demo
           ["FontRenderer"; "10"; "5"; "uint8_t"; "font"; "Mono"; "10"] 10 5);
    [simpl; lia | reflexivity | reflexivity | reflexivity].
Defined.

(** ** The Font Table of a valid range below 255 *)

(** For [0 <= from <= to <= 254] the characters are the codes of the closed
    interval in ascending order, and a Font Table lists its range fields
    and one entry per code, in that order. *)
Lemma font_table_of_range (fuel : nat) (e : Engine) (from to : Z) (entry : string * Z) :
  0 <= from -> from <= to -> to <= 254 -> (Z.to_nat (to - from + 1) < fuel)%nat ->
  exists characters,
    getCharacters fuel from to = Some characters
    /\ Z.of_nat (length characters) = to - from + 1
    /\ characters = seqZ from (to - from + 1)
    /\ font_table e characters from to entry
       = [indent 1 +:+ "{";
          indent 2 +:+ dquote +:+ entry.1 +:+ dquote +:+ ",";
          indent 2 +:+ show_int entry.2 +:+ ",";
          indent 2 +:+ show_int (metrics_height e {| family := entry.1; pointSize := entry.2 |}) +:+ ",";
          indent 2 +:+ show_int from +:+ ",";
          indent 2 +:+ show_int to +:+ ",";
          indent 2 +:+ "{"]
         ++ concat ((fun c => characterEntry e {| family := entry.1; pointSize := entry.2 |}
                                (metrics_height e {| family := entry.1; pointSize := entry.2 |}) c)
                      <$> seqZ from (to - from + 1))
         ++ [indent 2 +:+ "}"; indent 1 +:+ "}"].
Proof.
  intros Hfrom Hle Hto Hfuel. exists (seqZ from (to - from + 1)).
  split; [apply getCharacters_closed_interval; assumption|].
  split; [rewrite length_seqZ; lia|].
  split; reflexivity.
Qed.

(** C1 (the code departs from it at [to = 255]).  Whatever the fuel, the
    engine and the other arguments, a run whose [to] argument is 255 and
    whose [from] argument is at most 255 never returns: [getCharacters] is
    entered before anything is printed and its loop cannot leave, so no Font
    Table is emitted at all. *)
Theorem C1_to_255_never_returns (fuel : nat) (e : Engine) (argv : list string) (from : Z) :
  (7 <= length argv)%nat ->
  stoul (argv_at argv 1) = inr from -> from <= 255 ->
  stoul (argv_at argv 2) = inr 255 ->
  main fuel e argv = None.
Proof.
  intros Hargc Hfrom H255 Hto.
  pose proof (stoul_range _ _ Hfrom) as Hf.
  rewrite (main_parsed fuel e argv from 255) by assumption.
  unfold main_after_parse. simpl.
  rewrite (to_code_cases from) by lia.
  destruct (Z.leb_spec from 255); [|lia].
  change (to_code 255) with 255.
  destruct (Z.gtb_spec from 255); [lia|].
  rewrite getCharacters_255 by lia. reflexivity.
Qed.

Lemma C1_to_255_never_returns_witness :
  let argv := ["FontRenderer"; "0"; "255"; "uint8_t"; "font"; "Mono"; "10"] in
  ((7 <= length argv)%nat /\ stoul (argv_at argv 1) = inr 0 /\ 0 <= 255
   /\ stoul (argv_at argv 2) = inr 255)
  /\ main 1000 demo argv = None.
Proof.
  split; [repeat split; simpl; lia|].
  apply (C1_to_255_never_returns 1000 demo
           ["FontRenderer"; "0"; "255"; "uint8_t"; "font"; "Mono"; "10"] 0);
    [simpl; lia | reflexivity | lia | reflexivity].
Defined.

(** C4 (the code departs from it after a Font Table).  On the arguments
    [65 65 uint8_t font Mono 10 12] the program prints, for each of the two
    sizes, one brace group with the quoted name, the size, the line height,
    [from], [to] and the character entries in this order; the group is
    closed by a brace alone, so that the closing brace of the first Font
    Table is followed at once by the opening brace of the second, with no
    comma between them. *)
Theorem C4_font_tables_run_together (fuel : nat) (e : Engine) :
  (2 <= fuel)%nat ->
  let table (size : Z) :=
    let font := {| family := "Mono"; pointSize := size |} in
    [indent 1 +:+ "{";
     indent 2 +:+ dquote +:+ "Mono" +:+ dquote +:+ ",";
     indent 2 +:+ show_int size +:+ ",";
     indent 2 +:+ show_int (metrics_height e font) +:+ ",";
     indent 2 +:+ "65,";
     indent 2 +:+ "65,";
     indent 2 +:+ "{"]
    ++ characterEntry e font (metrics_height e font) 65
    ++ [indent 2 +:+ "}"; indent 1 +:+ "}"] in
  main fuel e ["FontRenderer"; "65"; "65"; "uint8_t"; "font"; "Mono"; "10"; "12"]
  = Some (Exited EXIT_SUCCESS
            (["uint8_t font = "; "{"] ++ table 10 ++ table 12 ++ ["};"])).
Proof.
  intros Hfuel table.
  rewrite (main_parsed fuel e _ 65 65) by (simpl; try lia; reflexivity).
  unfold main_after_parse.
  change (to_code 65) with 65. simpl FontDesc.from. simpl FontDesc.to.
  change (65 >? 65) with false. cbv iota.
  rewrite getCharacters_closed_interval by (simpl; lia).
  change (seqZ 65 (65 - 65 + 1)) with [65].
  change (drop 5 ["FontRenderer"; "65"; "65"; "uint8_t"; "font"; "Mono"; "10"; "12"])
    with ["Mono"; "10"; "12"].
  rewrite (sequencer_cons _ _ "Mono" _ _ _ _ _ (sequencer_step_name _ _ _ "Mono" eq_refl)).
  erewrite sequencer_cons
    by (apply (sequencer_step_table _ _ _ "10" 10); [split; [reflexivity|unfold Int.INT_MAX; lia]|discriminate]).
  erewrite sequencer_cons
    by (apply (sequencer_step_table _ _ _ "12" 12); [split; [reflexivity|unfold Int.INT_MAX; lia]|discriminate]).
  subst table. cbn [sequencer FontDesc.set_name FontDesc.set_size FontDesc.name
                    FontDesc.from FontDesc.to].
  unfold font_table, appendFontBitmap, fontHeader, fontFooter, openFontArray, closeFontArray.
  cbn [fst snd FontDesc.name FontDesc.size FontDesc.from FontDesc.to fmap list_fmap concat].
  rewrite !app_nil_r. rewrite <- !app_assoc. reflexivity.
Qed.

Lemma C4_font_tables_run_together_witness :
  (2 <= 2)%nat
  /\ main 2 demo ["FontRenderer"; "65"; "65"; "uint8_t"; "font"; "Mono"; "10"; "12"]
     = Some (Exited 0
         ["uint8_t font = "; "{";
          indent 1 +:+ "{"; indent 2 +:+ dquote +:+ "Mono" +:+ dquote +:+ ",";
          indent 2 +:+ "10,"; indent 2 +:+ "2,"; indent 2 +:+ "65,"; indent 2 +:+ "65,";
          indent 2 +:+ "{";
          indent 3 +:+ "{"; indent 4 +:+ "2,"; indent 4 +:+ "{";
          indent 5 +:+ "255,0,"; indent 5 +:+ "0,255,";
          indent 4 +:+ "}"; indent 3 +:+ "},";
          indent 2 +:+ "}"; indent 1 +:+ "}";
          indent 1 +:+ "{"; indent 2 +:+ dquote +:+ "Mono" +:+ dquote +:+ ",";
          indent 2 +:+ "12,"; indent 2 +:+ "0,"; indent 2 +:+ "65,"; indent 2 +:+ "65,";
          indent 2 +:+ "{";
          indent 3 +:+ "{"; indent 4 +:+ "2,"; indent 4 +:+ "{";
          indent 4 +:+ "}"; indent 3 +:+ "},";
          indent 2 +:+ "}"; indent 1 +:+ "}";
          "};"]).
Proof.
  split; [lia|].
  rewrite (C4_font_tables_run_together 2 demo) by lia.
  vm_compute. reflexivity.
Defined.

(** ** Counting the cells of a printed row *)

Lemma count_char_append (a : ascii) (s1 s2 : string) :
  count_char a (s1 +:+ s2) = (count_char a s1 + count_char a s2)%nat.
Proof. induction s1 as [|c s1 IH]; simpl; [reflexivity|]. rewrite IH. lia. Qed.

Lemma count_comma_uint (d : Decimal.uint) :
  count_char ","%char (NilEmpty.string_of_uint d) = O.
Proof. induction d; simpl; assumption || reflexivity. Qed.

Lemma count_comma_show_int (z : Z) : count_char ","%char (show_int z) = O.
Proof.
  unfold show_int. destruct (Z.to_int z) as [d|d]; simpl; unfold NilZero.string_of_uint;
    destruct d; try reflexivity; apply (count_comma_uint (_ _)).
Qed.

Lemma count_comma_row (row : list Z) :
  count_char ","%char
    (indent 5 +:+ concat_strings ((fun v => show_int v +:+ ",") <$> row))
  = length row.
Proof.
  rewrite count_char_append. change (count_char ","%char (indent 5)) with O. simpl.
  induction row as [|v row IH]; [reflexivity|].
  rewrite fmap_cons. simpl concat_strings. rewrite !count_char_append, count_comma_show_int.
  rewrite IH. reflexivity.
Qed.

(** What [characterEntry] prints for one character, and the shape of the
    grid it prints. *)
Lemma characterEntry_grid (e : Engine) (font : QFont) (height c : Z) :
  0 <= height -> 0 <= metrics_width e font c ->
  exists rows : list (list Z),
    characterEntry e font height c
    = [indent 3 +:+ "{"; indent 4 +:+ show_int (metrics_width e font c) +:+ ",";
       indent 4 +:+ "{"]
      ++ ((fun row => indent 5 +:+ concat_strings ((fun v => show_int v +:+ ",") <$> row))
            <$> rows)
      ++ [indent 4 +:+ "}"; indent 3 +:+ "},"]
    /\ Z.of_nat (length rows) = height
    /\ Forall (fun row => Z.of_nat (length row) = metrics_width e font c) rows
    /\ (metrics_width e font c = 0 -> rows = replicate (Z.to_nat height) []).
Proof.
  intros Hheight Hwidth. exists (bitmapRows e font c (metrics_width e font c) height).
  split; [reflexivity|].
  split; [rewrite length_bitmapRows; lia|].
  split.
  - eapply Forall_impl; [apply bitmapRows_rows|]. intros row Hrow. simpl in Hrow. lia.
  - intros Hzero. rewrite Hzero. apply bitmapRows_zero_width.
Qed.

(** C8.  A Font Table as printed consists of the header (which carries the
    line height), one entry per character and the footer.  Each entry
    prints the width of its character and then a grid with exactly
    line-height rows; every printed row holds exactly that width of cells,
    each cell a value followed by a comma.  So all entries of a table have
    the same number of rows, whatever their widths (under [demo] the entries
    of the codes 65 and 66 print the widths 2 and 0), and a character of
    width 0 is printed like any other, with line-height rows that hold
    nothing but the indentation. *)
Theorem C8_bitmap_shape (e : Engine) (characters : list Z) (font : QFont)
    (desc : FontDesc.t) :
  0 <= metrics_height e font ->
  Forall (fun c => 0 <= metrics_width e font c) characters ->
  let height := metrics_height e font in
  let printed_row (row : list Z) :=
    indent 5 +:+ concat_strings ((fun v => show_int v +:+ ",") <$> row) in
  let printed_entry (c : Z) (rows : list (list Z)) :=
    [indent 3 +:+ "{"; indent 4 +:+ show_int (metrics_width e font c) +:+ ",";
     indent 4 +:+ "{"]
    ++ (printed_row <$> rows)
    ++ [indent 4 +:+ "}"; indent 3 +:+ "},"] in
  (exists grids : list (list (list Z)),
     appendFontBitmap e characters font desc
     = fontHeader desc height ++ concat (zip_with printed_entry characters grids) ++ fontFooter
     /\ Forall2 (fun c rows =>
          Z.of_nat (length rows) = height
          /\ Forall (fun row =>
               Z.of_nat (length row) = metrics_width e font c
               /\ Z.of_nat (count_char ","%char (printed_row row)) = metrics_width e font c)
               rows
          /\ (metrics_width e font c = 0 ->
                printed_row <$> rows = replicate (Z.to_nat height) (indent 5)))
          characters grids
     /\ (forall rows rows', rows ∈ grids -> rows' ∈ grids -> length rows = length rows'))
  /\ (let font0 := {| family := "Mono"; pointSize := 3 |} in
      appendFontBitmap demo [65; 66] font0 desc !! 8%nat = Some (indent 4 +:+ "2,")
      /\ appendFontBitmap demo [65; 66] font0 desc !! 16%nat = Some (indent 4 +:+ "0,")).
Proof.
  intros Hheight Hwidths height printed_row printed_entry.
  split; [|split; reflexivity].
  assert (Hgrids : exists grids : list (list (list Z)),
            ((fun c => characterEntry e font height c) <$> characters)
            = zip_with printed_entry characters grids
            /\ Forall2 (fun c rows =>
                 Z.of_nat (length rows) = height
                 /\ Forall (fun row => Z.of_nat (length row) = metrics_width e font c) rows
                 /\ (metrics_width e font c = 0 -> rows = replicate (Z.to_nat height) []))
                 characters grids).
  { induction Hwidths as [|c characters Hc _ IH].
    - exists []. split; [reflexivity|constructor].
    - destruct IH as (grids & Hentries & Hshape).
      destruct (characterEntry_grid e font height c Hheight Hc)
        as (rows & Hentry & Hrows).
      exists (rows :: grids). split.
      + rewrite fmap_cons, Hentries, Hentry. reflexivity.
      + constructor; assumption. }
  destruct Hgrids as (grids & Hentries & Hshape).
  exists grids. split; [|split].
  - unfold appendFontBitmap. fold height. rewrite Hentries. reflexivity.
  - eapply Forall2_impl; [exact Hshape|].
    intros c rows (Hlen & Hrows & Hzero). split; [exact Hlen|]. split.
    + eapply Forall_impl; [exact Hrows|]. intros row Hrow. cbv beta.
      split; [exact Hrow|]. unfold printed_row.
      rewrite count_comma_row. exact Hrow.
    + intros Hw. rewrite (Hzero Hw). rewrite fmap_replicate. reflexivity.
  - assert (Hall : Forall (fun rows => Z.of_nat (length rows) = height) grids).
    { clear Hentries Hwidths.
      induction Hshape as [|c rows cs gs Hhead _ IH]; [constructor|].
      constructor; [apply Hhead|exact IH]. }
    rewrite Forall_forall in Hall. intros rows rows' Hin Hin'.
    pose proof (Hall _ Hin). pose proof (Hall _ Hin'). lia.
Qed.

Lemma C8_bitmap_shape_witness :
  let font := {| family := "Mono"; pointSize := 3 |} in
  let desc := {| FontDesc.name := "Mono"; FontDesc.size := 3;
                 FontDesc.from := 65; FontDesc.to := 66 |} in
  (0 <= metrics_height demo font
   /\ Forall (fun c => 0 <= metrics_width demo font c) [65; 66])
  /\ appendFontBitmap demo [65; 66] font desc
     = [indent 1 +:+ "{"; indent 2 +:+ dquote +:+ "Mono" +:+ dquote +:+ ",";
        indent 2 +:+ "3,"; indent 2 +:+ "3,"; indent 2 +:+ "65,"; indent 2 +:+ "66,";
        indent 2 +:+ "{";
        indent 3 +:+ "{"; indent 4 +:+ "2,"; indent 4 +:+ "{";
        indent 5 +:+ "255,0,"; indent 5 +:+ "0,255,"; indent 5 +:+ "255,0,";
        indent 4 +:+ "}"; indent 3 +:+ "},";
        indent 3 +:+ "{"; indent 4 +:+ "0,"; indent 4 +:+ "{";
        indent 5; indent 5; indent 5;
        indent 4 +:+ "}"; indent 3 +:+ "},";
        indent 2 +:+ "}"; indent 1 +:+ "}"]
  /\ exists grids : list (list (list Z)),
       Forall2 (fun c rows =>
            Z.of_nat (length rows) = 3
            /\ Forall (fun row => Z.of_nat (length row) = metrics_width demo font c) rows)
         [65; 66] grids.
Proof.
  assert (Hheight : 0 <= metrics_height demo {| family := "Mono"; pointSize := 3 |})
    by (vm_compute; congruence).
  assert (Hwidths : Forall (fun c => 0 <= metrics_width demo
                                       {| family := "Mono"; pointSize := 3 |} c) [65; 66])
    by (repeat constructor; vm_compute; congruence).
  split; [split; assumption|]. split; [reflexivity|].
  destruct (C8_bitmap_shape demo [65; 66] {| family := "Mono"; pointSize := 3 |}
              {| FontDesc.name := "Mono"; FontDesc.size := 3;
                 FontDesc.from := 65; FontDesc.to := 66 |} Hheight Hwidths)
    as [(grids & _ & Hshape & _) _].
  exists grids. eapply Forall2_impl; [exact Hshape|].
  intros c rows (Hlen & Hrows & _). split; [exact Hlen|].
  eapply Forall_impl; [exact Hrows|]. intros row [Hrow _]. exact Hrow.
Defined.

(** C10, as the code has it.  With at least 7 arguments the two parses are
    unguarded.  If both arguments carry, after optional white space and an
    optional sign, a decimal numeral of at most [ULONG_MAX] (in particular
    if both begin with such a numeral), both parses return and control
    reaches the range check; otherwise a parse throws, nothing catches the
    exception and the process is terminated having printed nothing, the
    usage line included. *)
Theorem C10_parses_unguarded (fuel : nat) (e : Engine) (argv : list string) :
  (7 <= length argv)%nat ->
  (begins_with_numeral (argv_at argv 1) /\ begins_with_numeral (argv_at argv 2) ->
     numeral_after_sign (argv_at argv 1) /\ numeral_after_sign (argv_at argv 2))
  /\ (numeral_after_sign (argv_at argv 1) /\ numeral_after_sign (argv_at argv 2) ->
        exists from to,
          stoul (argv_at argv 1) = inr from /\ stoul (argv_at argv 2) = inr to
          /\ main fuel e argv = main_after_parse fuel e argv from to)
  /\ (~ (numeral_after_sign (argv_at argv 1) /\ numeral_after_sign (argv_at argv 2)) ->
        exists exn, main fuel e argv = Some (Terminated exn [])).
Proof.
  intros Hargc. split; [|split].
  - intros [H1 H2]. split; apply begins_with_numeral_after_sign; assumption.
  - intros [H1 H2].
    destruct (stoul_returns _ H1) as [from Hfrom].
    destruct (stoul_returns _ H2) as [to Hto].
    exists from, to. split; [exact Hfrom|]. split; [exact Hto|].
    apply main_parsed; assumption.
  - intros Hnot. unfold main. rewrite argc_at_least_7 by exact Hargc.
    destruct (stoul (argv_at argv 1)) as [exn|from] eqn:Hfrom; [exists exn; reflexivity|].
    destruct (stoul (argv_at argv 2)) as [exn|to] eqn:Hto; [exists exn; reflexivity|].
    exfalso. apply Hnot. split.
    + apply stoul_value_numeral with from. exact Hfrom.
    + apply stoul_value_numeral with to. exact Hto.
Qed.

Lemma C10_parses_unguarded_witness :
  let argv := ["FontRenderer"; "x"; "67"; "uint8_t"; "font"; "Mono"; "10"] in
  ((7 <= length argv)%nat
   /\ ~ (numeral_after_sign (argv_at argv 1) /\ numeral_after_sign (argv_at argv 2)))
  /\ exists exn, main 10 demo argv = Some (Terminated exn []).
Proof.
  assert (Hnot : ~ (numeral_after_sign "x" /\ numeral_after_sign "67")).
  { intros [[Hx _] _]. apply Hx. reflexivity. }
  split; [split; [simpl; lia|exact Hnot]|].
  apply (C10_parses_unguarded 10 demo
           ["FontRenderer"; "x"; "67"; "uint8_t"; "font"; "Mono"; "10"]);
    [simpl; lia|exact Hnot].
Defined.

(** C10 as stated fails on the argument [-1]: the string does not begin
    with a decimal numeral, and minus one is no value of [unsigned long],
    yet [std::stoul] returns, no exception is thrown and the run goes
    through the range check to a normal exit. *)
Lemma C10_minus_one_is_parsed :
  let argv := ["FontRenderer"; "-1"; "1"; "uint8_t"; "font"; "Mono"; "1"] in
  ~ begins_with_numeral (argv_at argv 1)
  /\ stoul (argv_at argv 1) = inr Int.ULONG_MAX
  /\ main 10 demo argv = main_after_parse 10 demo argv Int.ULONG_MAX 1
  /\ (forall exn out, main 10 demo argv <> Some (Terminated exn out))
  /\ exists out, main 10 demo argv = Some (Exited EXIT_SUCCESS out).
Proof.
  split; [intros [Hd _]; apply Hd; reflexivity|].
  split; [reflexivity|].
  split; [reflexivity|].
  split; [intros exn out; vm_compute; discriminate|].
  eexists. vm_compute. reflexivity.
Qed.

(** C2, as the code has it.  Let every token of the font list be a name
    token (no numeral can be read from it) or a size token (it reads as a
    positive integer that is a value of [int]).  Then the loop runs through
    the whole list and prints, after what was printed before, exactly the
    Font Tables that the sequencing rule yields from left to right: a name
    token replaces the current name and prints nothing, a size token prints
    nothing while the current name is empty and otherwise prints one Font
    Table with the current name and its size, and the name stays for the
    size tokens that follow. *)
Theorem C2_sequencer_tables (e : Engine) (characters : list Z) (tokens : list string) :
  Forall (fun tok => name_token tok \/ exists n, size_token tok n) tokens ->
  forall (desc : FontDesc.t) (out : list string),
  exists desc',
    sequencer e characters tokens desc out
    = inr (desc',
           out ++ concat (font_table e characters (FontDesc.from desc) (FontDesc.to desc)
                            <$> tables_by_rule tokens (FontDesc.name desc))).
Proof.
  induction 1 as [|tok tokens Htok _ IH]; intros desc out.
  - exists desc. simpl. rewrite app_nil_r. reflexivity.
  - destruct Htok as [Hname|[n Hsize]].
    + rewrite (sequencer_cons _ _ _ _ _ _ _ _ (sequencer_step_name e characters desc tok Hname)).
      destruct (IH (FontDesc.set_name desc tok) (out ++ [])) as [desc' Hrest].
      exists desc'. rewrite Hrest. rewrite app_nil_r.
      simpl. unfold name_token in Hname. rewrite Hname. reflexivity.
    + pose proof Hsize as [Hparse _].
      destruct (decide (FontDesc.name desc = EmptyString)) as [Hempty|Hnamed].
      * rewrite (sequencer_cons _ _ _ _ _ _ _ _
                   (sequencer_step_ignored e characters desc tok n Hparse Hempty)).
        destruct (IH (FontDesc.set_size desc (Int.wrap_int n)) (out ++ [])) as [desc' Hrest].
        exists desc'. rewrite Hrest. rewrite app_nil_r.
        simpl. rewrite Hparse.
        destruct (decide (FontDesc.name desc = EmptyString)); [reflexivity|contradiction].
      * rewrite (sequencer_cons _ _ _ _ _ _ _ _
                   (sequencer_step_table e characters desc tok n Hsize Hnamed)).
        destruct (IH (FontDesc.set_size desc n)
                     (out ++ font_table e characters (FontDesc.from desc) (FontDesc.to desc)
                               (FontDesc.name desc, n))) as [desc' Hrest].
        exists desc'. rewrite Hrest.
        simpl. rewrite Hparse.
        destruct (decide (FontDesc.name desc = EmptyString)); [contradiction|].
        rewrite fmap_cons. simpl. rewrite <- app_assoc. reflexivity.
Qed.

Lemma C2_sequencer_tables_witness :
  let desc := {| FontDesc.name := EmptyString; FontDesc.size := 0;
                 FontDesc.from := 65; FontDesc.to := 66 |} in
  let tokens := ["7"; "Mono"; "10"; "12"; "Sans"; "9"] in
  Forall (fun tok => name_token tok \/ exists n, size_token tok n) tokens
  /\ tables_by_rule tokens EmptyString = [("Mono", 10); ("Mono", 12); ("Sans", 9)]
  /\ exists desc',
       sequencer demo [65; 66] tokens desc ["{"]
       = inr (desc',
              ["{"] ++ concat (font_table demo [65; 66] 65 66
                                 <$> [("Mono", 10); ("Mono", 12); ("Sans", 9)])).
Proof.
  assert (Hint : forall n, 0 < n <= 12 -> 0 < n <= Int.INT_MAX)
    by (unfold Int.INT_MAX; lia).
  assert (Htokens : Forall (fun tok => name_token tok \/ exists n, size_token tok n)
                      ["7"; "Mono"; "10"; "12"; "Sans"; "9"]).
  { repeat (apply Forall_cons_2 || apply Forall_nil_2).
    - right. exists 7. split; [reflexivity|apply Hint; lia].
    - left. reflexivity.
    - right. exists 10. split; [reflexivity|apply Hint; lia].
    - right. exists 12. split; [reflexivity|apply Hint; lia].
    - left. reflexivity.
    - right. exists 9. split; [reflexivity|apply Hint; lia]. }
  split; [exact Htokens|]. split; [reflexivity|].
  apply (C2_sequencer_tables demo [65; 66] ["7"; "Mono"; "10"; "12"; "Sans"; "9"] Htokens
           {| FontDesc.name := EmptyString; FontDesc.size := 0;
              FontDesc.from := 65; FontDesc.to := 66 |} ["{"]).
Defined.

(** C2 as stated fails in two places.  An empty token is no integer, so it
    becomes the current name; the size token after it still prints nothing,
    because the program takes an empty name for no name.  And a size token
    above [INT_MAX] does not give a Font Table of that size: the size is
    stored in an [int], here as -2147483648, and printed as such. *)
Lemma C2_empty_name_and_wide_size :
  let desc := {| FontDesc.name := EmptyString; FontDesc.size := 0;
                 FontDesc.from := 65; FontDesc.to := 65 |} in
  (name_token EmptyString /\ stoul "12" = inr 12
   /\ sequencer demo [65] [EmptyString; "12"] desc []
      = inr (FontDesc.set_size desc 12, []))
  /\ (name_token "Mono" /\ stoul "2147483648" = inr 2147483648
      /\ sequencer demo [65] ["Mono"; "2147483648"] desc []
         = inr (FontDesc.set_size (FontDesc.set_name desc "Mono") (-2147483648),
                font_table demo [65] 65 65 ("Mono", -2147483648))
      /\ font_table demo [65] 65 65 ("Mono", -2147483648) !! 2%nat
         = Some (indent 2 +:+ "-2147483648,")
      /\ font_table demo [65] 65 65 ("Mono", 2147483648) !! 2%nat
         = Some (indent 2 +:+ "2147483648,")).
Proof.
  repeat split; reflexivity.
Qed.

(** ** A numeral beyond [unsigned long] in the font list *)

(** The handler of the loop catches [std::invalid_argument] only.  A token
    whose numeral exceeds [ULONG_MAX] makes [std::stoul] throw
    [std::out_of_range]; the run ends there, after the opening lines, and
    neither the tokens that follow nor the closing line are reached. *)
Lemma sequencer_out_of_range (e : Engine) :
  main 2 e ["FontRenderer"; "65"; "65"; "uint8_t"; "font";
            "Mono"; "99999999999999999999"; "12"]
  = Some (Terminated out_of_range ["uint8_t font = "; "{"]).
Proof. reflexivity. Qed.

(** * Further properties of the code *)

(** ** [normalize] on arbitrary pixels and ceilings *)

Lemma channel_sum_range (color : Z) :
  0 <= color / 65536 mod 256 + color / 256 mod 256 + color mod 256 <= 765.
Proof.
  pose proof (Z.mod_pos_bound (color / 65536) 256).
  pose proof (Z.mod_pos_bound (color / 256) 256).
  pose proof (Z.mod_pos_bound color 256). lia.
Qed.

Lemma normalize_255_range (color : QRgb) :
  0 <= color -> 0 <= normalize color 255 <= 255.
Proof.
  intros Hc. rewrite normalize_channels by exact Hc.
  pose proof (channel_sum_range color) as Hsum.
  rewrite wrap_int_id by (unfold Int.in_int, Int.INT_MIN, Int.INT_MAX; lia).
  rewrite Z.quot_div_nonneg by lia.
  split; [apply Z.div_pos; lia|apply Z.div_le_upper_bound; lia].
Qed.

(** Whatever the pixel, alpha channel included, the value printed for it
    fits a byte. *)
Theorem normalize_255_is_a_byte (color : QRgb) :
  0 <= color -> 0 <= normalize color 255 <= 255.
Proof. apply normalize_255_range. Qed.

Lemma normalize_255_is_a_byte_witness :
  0 <= 0x80FF7F01 /\ 0 <= normalize 0x80FF7F01 255 <= 255.
Proof. split; [lia|]. apply (normalize_255_is_a_byte 0x80FF7F01). lia. Defined.

(** The docstring's range 0..ceiling holds for every ceiling up to 2807168:
    the product stays within [int], the result lies between 0 and the
    ceiling, and white is mapped to the ceiling itself.  The bound is
    sharp: above it the product computed for white exceeds [INT_MAX]. *)
Theorem normalize_ceiling_range (color : QRgb) (ceiling : Z) :
  0 <= color -> 0 <= ceiling ->
  (ceiling <= 2807168 ->
     0 <= normalize color ceiling <= ceiling /\ normalize white ceiling = ceiling)
  /\ (2807168 < ceiling -> ~ Int.in_int ((255 + 255 + 255) * ceiling)).
Proof.
  intros Hc Hceil. split.
  - intros Hle. split.
    + rewrite normalize_channels by exact Hc.
      pose proof (channel_sum_range color) as Hsum.
      rewrite wrap_int_id by (unfold Int.in_int, Int.INT_MIN, Int.INT_MAX; nia).
      rewrite Z.quot_div_nonneg by nia.
      split; [apply Z.div_pos; nia|apply Z.div_le_upper_bound; nia].
    + rewrite normalize_channels by (unfold white; lia).
      change (white / 65536 mod 256 + white / 256 mod 256 + white mod 256) with 765.
      rewrite wrap_int_id by (unfold Int.in_int, Int.INT_MIN, Int.INT_MAX; lia).
      rewrite Z.quot_div_nonneg by lia.
      rewrite Z.mul_comm. apply Z.div_mul. lia.
  - intros Hgt. unfold Int.in_int, Int.INT_MAX. lia.
Qed.

Lemma normalize_ceiling_range_witness :
  (0 <= 0x00204060 /\ 0 <= 15 /\ 15 <= 2807168)
  /\ 0 <= normalize 0x00204060 15 <= 15 /\ normalize white 15 = 15.
Proof.
  split; [lia|]. apply (normalize_ceiling_range 0x00204060 15); lia.
Defined.

(** The alpha channel plays no part: only the low 24 bits are read. *)
Theorem normalize_ignores_alpha (color : QRgb) (ceiling : Z) :
  0 <= color -> normalize color ceiling = normalize (color mod 16777216) ceiling.
Proof.
  intros Hc. unfold normalize.
  change 16777216 with (2 ^ 24). rewrite <- Z.land_ones by lia.
  rewrite <- !Z.land_assoc.
  change (Z.land (Z.ones 24) 0x00FF0000) with 0x00FF0000.
  change (Z.land (Z.ones 24) 0x0000FF00) with 0x0000FF00.
  change (Z.land (Z.ones 24) 0x000000FF) with 0x000000FF.
  reflexivity.
Qed.

Lemma normalize_ignores_alpha_witness :
  0 <= 0xFF102030 /\ normalize 0xFF102030 255 = normalize 0x00102030 255.
Proof. split; [lia|]. apply (normalize_ignores_alpha 0xFF102030 255). lia. Defined.

(** At ceiling 255 a grey pixel is mapped to its own level. *)
Theorem normalize_grey (v a : Z) :
  0 <= v <= 255 -> 0 <= a <= 255 -> normalize (qRgba v v v a) 255 = v.
Proof.
  intros Hv Ha. rewrite normalize_qRgba_255 by assumption.
  replace ((v + v + v) * 255) with (v * 765) by lia. apply Z.div_mul. lia.
Qed.

Lemma normalize_grey_witness :
  (0 <= 77 <= 255 /\ 0 <= 255 <= 255) /\ normalize (qRgba 77 77 77 255) 255 = 77.
Proof. split; [lia|]. apply (normalize_grey 77 255); lia. Defined.

(** ** The string of [getCharacters] *)

(** The loop also leaves when [from] is above [to], with the empty string. *)
Lemma getCharacters_any_interval (fuel : nat) (from to : Z) :
  0 <= from -> to <= 254 -> (Z.to_nat (to - from + 1) < fuel)%nat ->
  getCharacters fuel from to = Some (seqZ from (to - from + 1)).
Proof.
  intros Hfrom Hto Hfuel. destruct (Z.le_gt_cases from to) as [Hle|Hgt].
  - apply getCharacters_closed_interval; assumption.
  - destruct fuel as [|fuel]; [lia|]. unfold getCharacters. simpl.
    destruct (Z.leb_spec from to); [lia|]. rewrite seqZ_nil by lia. reflexivity.
Qed.

(** With [to] below 255 the string holds exactly the codes of the interval,
    each once, and it is empty when [from] is above [to]. *)
Theorem getCharacters_members (fuel : nat) (from to : Z) :
  0 <= from -> to <= 254 -> (Z.to_nat (to - from + 1) < fuel)%nat ->
  exists characters,
    getCharacters fuel from to = Some characters
    /\ NoDup characters
    /\ (forall c, c ∈ characters <-> from <= c <= to)
    /\ (to < from -> characters = []).
Proof.
  intros Hfrom Hto Hfuel. exists (seqZ from (to - from + 1)).
  split; [apply getCharacters_any_interval; assumption|].
  split; [apply NoDup_seqZ|].
  split; [intros c; rewrite elem_of_seqZ; lia|].
  intros Hlt. apply seqZ_nil. lia.
Qed.

Lemma getCharacters_members_witness :
  ((0 <= 65 /\ 68 <= 254 /\ (Z.to_nat (68 - 65 + 1) < 5)%nat)
   /\ getCharacters 5 65 68 = Some [65; 66; 67; 68]
   /\ exists characters,
        getCharacters 5 65 68 = Some characters
        /\ NoDup characters
        /\ (forall c, c ∈ characters <-> 65 <= c <= 68)
        /\ (68 < 65 -> characters = []))
  /\ ((0 <= 70 /\ 65 <= 254 /\ (Z.to_nat (65 - 70 + 1) < 1)%nat)
      /\ exists characters,
           getCharacters 1 70 65 = Some characters
           /\ NoDup characters
           /\ (forall c, c ∈ characters <-> 70 <= c <= 65)
           /\ (65 < 70 -> characters = [])).
Proof.
  split.
  - split; [repeat split; simpl; lia|]. split; [reflexivity|].
    apply (getCharacters_members 5 65 68); simpl; lia.
  - split; [repeat split; simpl; lia|].
    apply (getCharacters_members 1 70 65); simpl; lia.
Defined.

(** The character with code [c] is found at index [c - from], so the
    entries of a Font Table can be addressed by code. *)
Theorem getCharacters_index (fuel : nat) (from to c : Z) :
  0 <= from -> to <= 254 -> (Z.to_nat (to - from + 1) < fuel)%nat ->
  from <= c <= to ->
  exists characters,
    getCharacters fuel from to = Some characters
    /\ characters !! Z.to_nat (c - from) = Some c.
Proof.
  intros Hfrom Hto Hfuel Hc. exists (seqZ from (to - from + 1)).
  split; [apply getCharacters_any_interval; assumption|].
  rewrite lookup_seqZ_lt by lia. f_equal. lia.
Qed.

Lemma getCharacters_index_witness :
  (0 <= 65 /\ 90 <= 254 /\ (Z.to_nat (90 - 65 + 1) < 30)%nat /\ 65 <= 72 <= 90)
  /\ exists characters,
       getCharacters 30 65 90 = Some characters
       /\ characters !! Z.to_nat (72 - 65) = Some 72.
Proof.
  split; [repeat split; simpl; lia|].
  apply (getCharacters_index 30 65 90 72); simpl; lia.
Defined.

(** ** The grid of one character *)



(** Metrics that are zero or negative are not an error: a height of at
    most 0 gives an entry without rows, a width of at most 0 gives rows
    without cells, and the width is printed as it is. *)
Theorem characterEntry_degenerate (e : Engine) (font : QFont) (height c : Z) :
  (height <= 0 ->
     characterEntry e font height c
     = [indent 3 +:+ "{"; indent 4 +:+ show_int (metrics_width e font c) +:+ ",";
        indent 4 +:+ "{"; indent 4 +:+ "}"; indent 3 +:+ "},"])
  /\ (metrics_width e font c <= 0 ->
        characterEntry e font height c
        = [indent 3 +:+ "{"; indent 4 +:+ show_int (metrics_width e font c) +:+ ",";
           indent 4 +:+ "{"]
          ++ replicate (Z.to_nat height) (indent 5)
          ++ [indent 4 +:+ "}"; indent 3 +:+ "},"]).
Proof.
  split.
  - intros Hheight. unfold characterEntry, bitmapRows.
    rewrite (seqZ_nil 0 height) by lia. reflexivity.
  - intros Hwidth. unfold characterEntry, bitmapRows, pixelRow.
    rewrite (seqZ_nil 0 (metrics_width e font c)) by lia.
    do 2 f_equal. rewrite <- list_fmap_compose.
    rewrite <- (length_seqZ 0 height).
    induction (seqZ 0 height) as [|y ys IH]; [reflexivity|].
    rewrite fmap_cons. simpl. f_equal. exact IH.
Qed.

Lemma characterEntry_degenerate_witness :
  let negative := {| metrics_height := fun _ => 2; metrics_width := fun _ _ => -3;
                     image_pixel := fun _ _ _ _ => white |} in
  let font := {| family := "Mono"; pointSize := 3 |} in
  metrics_width negative font 65 <= 0
  /\ characterEntry negative font 2 65
     = [indent 3 +:+ "{"; indent 4 +:+ "-3,"; indent 4 +:+ "{";
        indent 5; indent 5; indent 4 +:+ "}"; indent 3 +:+ "},"].
Proof.
  split; [simpl; lia|].
  apply (characterEntry_degenerate
           {| metrics_height := fun _ => 2; metrics_width := fun _ _ => -3;
              image_pixel := fun _ _ _ _ => white |}
           {| family := "Mono"; pointSize := 3 |} 2 65).
  simpl. lia.
Defined.

(** ** The size and layout of a Font Table *)

Lemma length_characterEntry (e : Engine) (font : QFont) (height c : Z) :
  length (characterEntry e font height c) = (5 + Z.to_nat height)%nat.
Proof.
  unfold characterEntry. rewrite !length_app, length_fmap, length_bitmapRows.
  simpl. lia.
Qed.

Lemma length_concat_uniform {A : Type} (blocks : list (list A)) (n : nat) :
  Forall (fun block => length block = n) blocks ->
  length (concat blocks) = (length blocks * n)%nat.
Proof.
  induction 1 as [|block blocks Hblock _ IH]; [reflexivity|].
  simpl. rewrite length_app, IH, Hblock. reflexivity.
Qed.

Lemma lookup_concat_uniform {A : Type} (blocks : list (list A)) (n k i : nat)
    (block : list A) :
  Forall (fun block => length block = n) blocks ->
  blocks !! k = Some block -> (i < n)%nat ->
  concat blocks !! (k * n + i)%nat = block !! i.
Proof.
  intros Hblocks. revert k. induction Hblocks as [|b blocks Hb _ IH]; intros k Hk Hi.
  - discriminate.
  - destruct k as [|k]; simpl in *.
    + injection Hk as ->. apply lookup_app_l. lia.
    + rewrite lookup_app_r by lia.
      replace (n + k * n + i - length b)%nat with (k * n + i)%nat by lia.
      apply IH; assumption.
Qed.

(** A Font Table has 9 lines of its own and [5 + height] lines for every
    character. *)
Theorem length_appendFontBitmap (e : Engine) (characters : list Z) (font : QFont)
    (desc : FontDesc.t) :
  length (appendFontBitmap e characters font desc)
  = (9 + length characters * (5 + Z.to_nat (metrics_height e font)))%nat.
Proof.
  unfold appendFontBitmap, fontHeader, fontFooter.
  rewrite !length_app.
  rewrite (length_concat_uniform _ (5 + Z.to_nat (metrics_height e font))).
  - rewrite length_fmap. simpl. lia.
  - apply Forall_fmap, Forall_forall. intros c _. simpl. apply length_characterEntry.
Qed.

(** The entry of the [k]-th character starts [7 + k * (5 + height)] lines
    into the Font Table; its second line carries the width of that
    character. *)
Theorem appendFontBitmap_entry_at (e : Engine) (characters : list Z) (font : QFont)
    (desc : FontDesc.t) (k : nat) (c : Z) :
  characters !! k = Some c ->
  let start := (7 + k * (5 + Z.to_nat (metrics_height e font)))%nat in
  appendFontBitmap e characters font desc !! start = Some (indent 3 +:+ "{")
  /\ appendFontBitmap e characters font desc !! S start
     = Some (indent 4 +:+ show_int (metrics_width e font c) +:+ ",").
Proof.
  intros Hk start. subst start.
  set (n := (5 + Z.to_nat (metrics_height e font))%nat).
  assert (Hblocks : Forall (fun block => length block = n)
                      ((fun c => characterEntry e font (metrics_height e font) c)
                         <$> characters)).
  { apply Forall_fmap, Forall_forall. intros c' _. simpl. apply length_characterEntry. }
  assert (Hblock : ((fun c => characterEntry e font (metrics_height e font) c)
                      <$> characters) !! k
                   = Some (characterEntry e font (metrics_height e font) c)).
  { rewrite list_lookup_fmap, Hk. reflexivity. }
  assert (Hin : forall i, (i < 5)%nat ->
            appendFontBitmap e characters font desc !! (7 + (k * n + i))%nat
            = characterEntry e font (metrics_height e font) c !! i).
  { intros i Hi. unfold appendFontBitmap.
    rewrite lookup_app_r by (simpl; lia).
    replace (7 + (k * n + i) - length (fontHeader desc (metrics_height e font)))%nat
      with (k * n + i)%nat by (simpl; lia).
    rewrite lookup_app_l.
    - apply lookup_concat_uniform; [exact Hblocks|exact Hblock|subst n; lia].
    - rewrite (length_concat_uniform _ n Hblocks), length_fmap.
      apply lookup_lt_Some in Hk. subst n. nia. }
  split.
  - replace (7 + k * n)%nat with (7 + (k * n + 0))%nat by lia.
    rewrite Hin by lia. reflexivity.
  - replace (S (7 + k * n)) with (7 + (k * n + 1))%nat by lia.
    rewrite Hin by lia. reflexivity.
Qed.

Lemma appendFontBitmap_entry_at_witness :
  let font := {| family := "Mono"; pointSize := 3 |} in
  let desc := {| FontDesc.name := "Mono"; FontDesc.size := 3;
                 FontDesc.from := 65; FontDesc.to := 67 |} in
  [65; 66; 67] !! 2%nat = Some 67
  /\ appendFontBitmap demo [65; 66; 67] font desc !! 23%nat = Some (indent 3 +:+ "{")
  /\ appendFontBitmap demo [65; 66; 67] font desc !! 24%nat = Some (indent 4 +:+ "1,").
Proof.
  split; [reflexivity|].
  apply (appendFontBitmap_entry_at demo [65; 66; 67] {| family := "Mono"; pointSize := 3 |}
           {| FontDesc.name := "Mono"; FontDesc.size := 3;
              FontDesc.from := 65; FontDesc.to := 67 |} 2 67).
  reflexivity.
Defined.

(** Any line of the entry of the [k]-th character, found in the table. *)
Lemma appendFontBitmap_lookup_entry (e : Engine) (characters : list Z) (font : QFont)
    (desc : FontDesc.t) (k i : nat) (c : Z) :
  characters !! k = Some c ->
  (i < 5 + Z.to_nat (metrics_height e font))%nat ->
  appendFontBitmap e characters font desc
    !! (7 + k * (5 + Z.to_nat (metrics_height e font)) + i)%nat
  = characterEntry e font (metrics_height e font) c !! i.
Proof.
  intros Hk Hi. set (n := (5 + Z.to_nat (metrics_height e font))%nat) in *.
  assert (Hblocks : Forall (fun block => length block = n)
                      ((fun c => characterEntry e font (metrics_height e font) c)
                         <$> characters)).
  { apply Forall_fmap, Forall_forall. intros c' _. simpl. apply length_characterEntry. }
  unfold appendFontBitmap.
  rewrite lookup_app_r by (simpl; lia).
  replace (7 + k * n + i - length (fontHeader desc (metrics_height e font)))%nat
    with (k * n + i)%nat by (simpl; lia).
  rewrite lookup_app_l.
  - apply lookup_concat_uniform; [exact Hblocks| |exact Hi].
    rewrite list_lookup_fmap, Hk. reflexivity.
  - rewrite (length_concat_uniform _ n Hblocks), length_fmap.
    apply lookup_lt_Some in Hk. nia.
Qed.

(** The printed grid is row-major and its rows can be addressed: row [y] of
    the [k]-th character is the line [7 + k * (5 + height) + 3 + y] of the
    Font Table, and it holds, after the indentation, the normalised pixels
    [(0, y)], [(1, y)], ... of that character up to its width, each
    followed by a comma. *)
Theorem appendFontBitmap_row_at (e : Engine) (characters : list Z) (font : QFont)
    (desc : FontDesc.t) (k : nat) (c y : Z) :
  characters !! k = Some c ->
  0 <= y < metrics_height e font ->
  appendFontBitmap e characters font desc
    !! (7 + k * (5 + Z.to_nat (metrics_height e font)) + 3 + Z.to_nat y)%nat
  = Some (indent 5
          +:+ concat_strings
                ((fun x => show_int (normalize (image_pixel e font c x y) 255) +:+ ",")
                   <$> seqZ 0 (metrics_width e font c))).
Proof.
  intros Hk Hy.
  replace (7 + k * (5 + Z.to_nat (metrics_height e font)) + 3 + Z.to_nat y)%nat
    with (7 + k * (5 + Z.to_nat (metrics_height e font)) + (3 + Z.to_nat y))%nat by lia.
  rewrite (appendFontBitmap_lookup_entry e characters font desc k (3 + Z.to_nat y) c Hk)
    by lia.
  unfold characterEntry.
  rewrite lookup_app_r by (simpl; lia).
  replace (3 + Z.to_nat y - length [indent 3 +:+ "{";
             indent 4 +:+ show_int (metrics_width e font c) +:+ ","; indent 4 +:+ "{"])%nat
    with (Z.to_nat y) by (simpl; lia).
  rewrite lookup_app_l by (rewrite length_fmap, length_bitmapRows; lia).
  unfold bitmapRows. rewrite !list_lookup_fmap, lookup_seqZ_lt by lia.
  simpl. unfold rowChunk, pixelRow. rewrite <- list_fmap_compose.
  rewrite Z.add_0_l, Z2Nat.id by lia. reflexivity.
Qed.

Lemma appendFontBitmap_row_at_witness :
  let font := {| family := "Mono"; pointSize := 3 |} in
  let desc := {| FontDesc.name := "Mono"; FontDesc.size := 3;
                 FontDesc.from := 65; FontDesc.to := 68 |} in
  ([65; 66; 67; 68] !! 3%nat = Some 68 /\ 0 <= 1 < metrics_height demo font)
  /\ appendFontBitmap demo [65; 66; 67; 68] font desc !! 35%nat
     = Some (indent 5 +:+ "0,255,").
Proof.
  split; [split; [reflexivity|vm_compute; split; congruence]|].
  apply (appendFontBitmap_row_at demo [65; 66; 67; 68] {| family := "Mono"; pointSize := 3 |}
           {| FontDesc.name := "Mono"; FontDesc.size := 3;
              FontDesc.from := 65; FontDesc.to := 68 |} 3 68 1);
    [reflexivity|vm_compute; split; congruence].
Defined.

(** ** The sequencing loop as a whole *)

(** Running the loop over two lists of arguments in a row is running it
    over the first and then, from where that ended, over the second; an
    exception in the first keeps the second from being looked at. *)
Theorem sequencer_app (e : Engine) (characters : list Z) (args1 args2 : list string)
    (desc : FontDesc.t) (out : list string) :
  sequencer e characters (args1 ++ args2) desc out
  = match sequencer e characters args1 desc out with
    | inl thrown => inl thrown
    | inr (desc', out') => sequencer e characters args2 desc' out'
    end.
Proof.
  revert desc out. induction args1 as [|arg args1 IH]; intros desc out; [reflexivity|].
  simpl. destruct (sequencer_step e characters desc arg) as [exn|[desc' printed]];
    [reflexivity|]. apply IH.
Qed.

Lemma sequencer_step_total (e : Engine) (characters : list Z) (desc : FontDesc.t)
    (arg : string) :
  sequencer_step e characters desc arg = inl out_of_range
  \/ exists desc' printed,
       sequencer_step e characters desc arg = inr (desc', printed)
       /\ FontDesc.from desc' = FontDesc.from desc /\ FontDesc.to desc' = FontDesc.to desc.
Proof.
  destruct (sequencer_step e characters desc arg) as [exn|[desc' printed]] eqn:Hstep.
  - left. unfold sequencer_step in Hstep.
    destruct (stoul arg) as [[]|number]; [discriminate|congruence|].
    simpl in Hstep. destruct (decide _); discriminate.
  - right. exists desc', printed. split; [reflexivity|].
    apply (sequencer_step_range _ _ _ _ _ _ Hstep).
Qed.

(** What the loop does to the output and to the range, in either outcome. *)
Lemma sequencer_prefix (e : Engine) (characters : list Z) (args : list string)
    (desc : FontDesc.t) (out : list string) :
  match sequencer e characters args desc out with
  | inl (exn, out') => exn = out_of_range /\ out `prefix_of` out'
  | inr (desc', out') =>
      out `prefix_of` out'
      /\ FontDesc.from desc' = FontDesc.from desc /\ FontDesc.to desc' = FontDesc.to desc
  end.
Proof.
  revert desc out. induction args as [|arg args IH]; intros desc out.
  - simpl. split; [reflexivity|split; reflexivity].
  - simpl. destruct (sequencer_step_total e characters desc arg)
      as [Hthrow|(desc1 & printed & Hstep & Hfrom & Hto)].
    + rewrite Hthrow. split; reflexivity.
    + rewrite Hstep. specialize (IH desc1 (out ++ printed)).
      destruct (sequencer e characters args desc1 (out ++ printed)) as [[exn out']|[desc' out']].
      * destruct IH as [Hexn Hpre]. split; [exact Hexn|].
        etransitivity; [apply prefix_app_r; reflexivity|exact Hpre].
      * destruct IH as (Hpre & Hfrom' & Hto'). split; [|split; congruence].
        etransitivity; [apply prefix_app_r; reflexivity|exact Hpre].
Qed.

(** The loop only ever appends to what was printed, whether it runs to the
    end or is left by an exception; the only exception that leaves it is
    [std::out_of_range]; and it never changes the range of the descriptor. *)
Theorem sequencer_appends (e : Engine) (characters : list Z) (args : list string)
    (desc : FontDesc.t) (out : list string) :
  match sequencer e characters args desc out with
  | inl (exn, out') => exn = out_of_range /\ out `prefix_of` out'
  | inr (desc', out') =>
      out `prefix_of` out'
      /\ FontDesc.from desc' = FontDesc.from desc /\ FontDesc.to desc' = FontDesc.to desc
  end.
Proof. apply sequencer_prefix. Qed.

(** A token whose first character is a digit is never taken for a font
    name, whatever follows the digits: it is read as a size, or its numeral
    is too large and the run ends. *)
Theorem digit_token_is_no_name (e : Engine) (characters : list Z) (desc : FontDesc.t)
    (c : ascii) (rest : string) :
  isdigit c = true ->
  sequencer_step e characters desc (String c rest) = inl out_of_range
  \/ exists n printed,
       stoul (String c rest) = inr n
       /\ sequencer_step e characters desc (String c rest)
          = inr (FontDesc.set_size desc (Int.wrap_int n), printed).
Proof.
  intros Hc. unfold sequencer_step, stoul. rewrite digit_first by exact Hc.
  simpl leading_digits. rewrite Hc.
  destruct (Z.gtb_spec (numeral_value (digit_value c :: leading_digits rest)) Int.ULONG_MAX).
  - left. reflexivity.
  - right. eexists. simpl. destruct (decide _); eexists; split; reflexivity.
Qed.

Lemma digit_token_is_no_name_witness :
  let desc := {| FontDesc.name := "Mono"; FontDesc.size := 0;
                 FontDesc.from := 65; FontDesc.to := 65 |} in
  isdigit "3"%char = true
  /\ stoul "3270 Condensed" = inr 3270
  /\ (sequencer_step demo [65] desc "3270 Condensed" = inl out_of_range
      \/ exists n printed,
           stoul "3270 Condensed" = inr n
           /\ sequencer_step demo [65] desc "3270 Condensed"
              = inr (FontDesc.set_size desc (Int.wrap_int n), printed)).
Proof.
  split; [reflexivity|]. split; [reflexivity|].
  apply (digit_token_is_no_name demo [65]
           {| FontDesc.name := "Mono"; FontDesc.size := 0;
              FontDesc.from := 65; FontDesc.to := 65 |} "3"%char "270 Condensed").
  reflexivity.
Defined.

(** While no font name has been given, numeric tokens of any value print
    nothing and leave the name empty. *)
Theorem sizes_without_name (e : Engine) (characters : list Z) (args : list string) :
  Forall (fun arg => exists n, stoul arg = inr n) args ->
  forall (desc : FontDesc.t) (out : list string),
    FontDesc.name desc = EmptyString ->
    exists desc',
      sequencer e characters args desc out = inr (desc', out)
      /\ FontDesc.name desc' = EmptyString.
Proof.
  induction 1 as [|arg args [n Harg] _ IH]; intros desc out Hname.
  - exists desc. split; [reflexivity|exact Hname].
  - rewrite (sequencer_cons _ _ _ _ _ _ _ _
               (sequencer_step_ignored e characters desc arg n Harg Hname)).
    rewrite app_nil_r. apply IH. exact Hname.
Qed.

Lemma sizes_without_name_witness :
  let desc := {| FontDesc.name := EmptyString; FontDesc.size := 0;
                 FontDesc.from := 65; FontDesc.to := 65 |} in
  Forall (fun arg => exists n, stoul arg = inr n) ["12"; "0"; "-4"; "18pt"]
  /\ exists desc',
       sequencer demo [65] ["12"; "0"; "-4"; "18pt"] desc ["{"] = inr (desc', ["{"])
       /\ FontDesc.name desc' = EmptyString.
Proof.
  assert (Hargs : Forall (fun arg => exists n, stoul arg = inr n) ["12"; "0"; "-4"; "18pt"]).
  { repeat (apply Forall_cons_2 || apply Forall_nil_2); eexists; reflexivity. }
  split; [exact Hargs|].
  apply (sizes_without_name demo [65] ["12"; "0"; "-4"; "18pt"] Hargs
           {| FontDesc.name := EmptyString; FontDesc.size := 0;
              FontDesc.from := 65; FontDesc.to := 65 |} ["{"]).
  reflexivity.
Defined.

(** The loop on a run of name and size tokens, then on whatever follows. *)
Lemma sequencer_good_prefix (e : Engine) (characters : list Z) (tokens : list string) :
  Forall (fun tok => name_token tok \/ exists n, size_token tok n) tokens ->
  forall (rest : list string) (desc : FontDesc.t) (out : list string),
  exists desc',
    FontDesc.from desc' = FontDesc.from desc /\ FontDesc.to desc' = FontDesc.to desc
    /\ sequencer e characters (tokens ++ rest) desc out
       = sequencer e characters rest desc'
           (out ++ concat (font_table e characters (FontDesc.from desc) (FontDesc.to desc)
                             <$> tables_by_rule tokens (FontDesc.name desc))).
Proof.
  induction 1 as [|tok tokens Htok _ IH]; intros rest desc out.
  - exists desc. simpl. rewrite app_nil_r. repeat split; reflexivity.
  - rewrite <- app_comm_cons. destruct Htok as [Hname|[n Hsize]].
    + rewrite (sequencer_cons _ _ _ _ _ _ _ _ (sequencer_step_name e characters desc tok Hname)).
      destruct (IH rest (FontDesc.set_name desc tok) (out ++ [])) as (desc' & Hf & Ht & Hrest).
      exists desc'. split; [exact Hf|]. split; [exact Ht|].
      rewrite Hrest, app_nil_r. simpl. unfold name_token in Hname. rewrite Hname. reflexivity.
    + pose proof Hsize as [Hparse _].
      destruct (decide (FontDesc.name desc = EmptyString)) as [Hempty|Hnamed].
      * rewrite (sequencer_cons _ _ _ _ _ _ _ _
                   (sequencer_step_ignored e characters desc tok n Hparse Hempty)).
        destruct (IH rest (FontDesc.set_size desc (Int.wrap_int n)) (out ++ []))
          as (desc' & Hf & Ht & Hrest).
        exists desc'. split; [exact Hf|]. split; [exact Ht|].
        rewrite Hrest, app_nil_r. simpl. rewrite Hparse.
        destruct (decide (FontDesc.name desc = EmptyString)); [reflexivity|contradiction].
      * rewrite (sequencer_cons _ _ _ _ _ _ _ _
                   (sequencer_step_table e characters desc tok n Hsize Hnamed)).
        destruct (IH rest (FontDesc.set_size desc n)
                     (out ++ font_table e characters (FontDesc.from desc) (FontDesc.to desc)
                               (FontDesc.name desc, n))) as (desc' & Hf & Ht & Hrest).
        exists desc'. split; [exact Hf|]. split; [exact Ht|].
        rewrite Hrest. simpl. rewrite Hparse.
        destruct (decide (FontDesc.name desc = EmptyString)); [contradiction|].
        rewrite fmap_cons. simpl. rewrite <- app_assoc. reflexivity.
Qed.

(** ** Whole runs of [main] *)

Lemma main_valid_range (fuel : nat) (e : Engine) (argv : list string) (from to : Z) :
  (7 <= length argv)%nat ->
  stoul (argv_at argv 1) = inr from -> stoul (argv_at argv 2) = inr to ->
  from <= to -> to <= 254 -> (Z.to_nat (to - from + 1) < fuel)%nat ->
  main fuel e argv
  = match sequencer e (seqZ from (to - from + 1)) (drop 5 argv)
            {| FontDesc.name := EmptyString; FontDesc.size := 0;
               FontDesc.from := from; FontDesc.to := to |}
            (openFontArray (argv_at argv 3) (argv_at argv 4)) with
    | inl (exn, out) => Some (Terminated exn out)
    | inr (_, out) => Some (Exited EXIT_SUCCESS (out ++ closeFontArray))
    end.
Proof.
  intros Hargc Hfrom Hto Hle H254 Hfuel.
  pose proof (stoul_range _ _ Hfrom) as Hf.
  rewrite (main_parsed fuel e argv from to) by assumption.
  unfold main_after_parse. simpl.
  rewrite (to_code_cases from), (to_code_cases to) by lia.
  destruct (Z.leb_spec from 255); [|lia]. destruct (Z.leb_spec to 255); [|lia].
  destruct (Z.gtb_spec from to); [lia|].
  rewrite getCharacters_closed_interval by lia. reflexivity.
Qed.

(** A run on a valid range below 255 whose font list holds name and size
    tokens only returns [EXIT_SUCCESS], and what it printed is the opening
    of the array, the Font Tables of the sequencing rule in order, each for
    the characters [from] to [to], and the closing line. *)
Theorem main_prints_tables (fuel : nat) (e : Engine) (argv : list string) (from to : Z) :
  (7 <= length argv)%nat ->
  stoul (argv_at argv 1) = inr from -> stoul (argv_at argv 2) = inr to ->
  from <= to -> to <= 254 -> (Z.to_nat (to - from + 1) < fuel)%nat ->
  Forall (fun tok => name_token tok \/ exists n, size_token tok n) (drop 5 argv) ->
  main fuel e argv
  = Some (Exited EXIT_SUCCESS
            (openFontArray (argv_at argv 3) (argv_at argv 4)
             ++ concat (font_table e (seqZ from (to - from + 1)) from to
                          <$> tables_by_rule (drop 5 argv) EmptyString)
             ++ closeFontArray)).
Proof.
  intros Hargc Hfrom Hto Hle H254 Hfuel Htokens.
  rewrite (main_valid_range fuel e argv from to) by assumption.
  rewrite <- (app_nil_r (drop 5 argv)) at 1.
  destruct (sequencer_good_prefix e (seqZ from (to - from + 1)) (drop 5 argv) Htokens []
              {| FontDesc.name := EmptyString; FontDesc.size := 0;
                 FontDesc.from := from; FontDesc.to := to |}
              (openFontArray (argv_at argv 3) (argv_at argv 4))) as (desc' & _ & _ & Hrun).
  rewrite Hrun. cbn [sequencer]. rewrite <- app_assoc. reflexivity.
Qed.

Lemma main_prints_tables_witness :
  let argv := ["FontRenderer"; "65"; "66"; "uint8_t"; "font"; "Mono"; "2"; "3"] in
  ((7 <= length argv)%nat /\ stoul (argv_at argv 1) = inr 65
   /\ stoul (argv_at argv 2) = inr 66 /\ 65 <= 66 /\ 66 <= 254
   /\ (Z.to_nat (66 - 65 + 1) < 3)%nat)
  /\ main 3 demo argv
     = Some (Exited EXIT_SUCCESS
               (["uint8_t font = "; "{"]
                ++ concat (font_table demo [65; 66] 65 66 <$> [("Mono", 2); ("Mono", 3)])
                ++ ["};"])).
Proof.
  split; [repeat split; simpl; lia|].
  apply (main_prints_tables 3 demo
           ["FontRenderer"; "65"; "66"; "uint8_t"; "font"; "Mono"; "2"; "3"] 65 66);
    [simpl; lia | reflexivity | reflexivity | lia | lia | simpl; lia |].
  repeat (apply Forall_cons_2 || apply Forall_nil_2).
  - left. reflexivity.
  - right. exists 2. split; [reflexivity|unfold Int.INT_MAX; lia].
  - right. exists 3. split; [reflexivity|unfold Int.INT_MAX; lia].
Defined.

(** A numeral above [ULONG_MAX] in the font list ends the run with an
    uncaught [std::out_of_range]: the tables of the tokens before it have
    been printed, the tokens after it are never looked at, and the closing
    line of the array is not printed. *)
Theorem main_out_of_range (fuel : nat) (e : Engine) (argv : list string) (from to : Z)
    (before after : list string) (tok : string) :
  (7 <= length argv)%nat ->
  stoul (argv_at argv 1) = inr from -> stoul (argv_at argv 2) = inr to ->
  from <= to -> to <= 254 -> (Z.to_nat (to - from + 1) < fuel)%nat ->
  drop 5 argv = before ++ tok :: after ->
  Forall (fun tok => name_token tok \/ exists n, size_token tok n) before ->
  stoul tok = inl out_of_range ->
  main fuel e argv
  = Some (Terminated out_of_range
            (openFontArray (argv_at argv 3) (argv_at argv 4)
             ++ concat (font_table e (seqZ from (to - from + 1)) from to
                          <$> tables_by_rule before EmptyString))).
Proof.
  intros Hargc Hfrom Hto Hle H254 Hfuel Hsplit Hbefore Htok.
  rewrite (main_valid_range fuel e argv from to) by assumption.
  rewrite Hsplit.
  destruct (sequencer_good_prefix e (seqZ from (to - from + 1)) before Hbefore (tok :: after)
              {| FontDesc.name := EmptyString; FontDesc.size := 0;
                 FontDesc.from := from; FontDesc.to := to |}
              (openFontArray (argv_at argv 3) (argv_at argv 4))) as (desc' & _ & _ & Hrun).
  rewrite Hrun. simpl. unfold sequencer_step. rewrite Htok. reflexivity.
Qed.

Lemma main_out_of_range_witness :
  let argv := ["FontRenderer"; "65"; "66"; "uint8_t"; "font";
               "Mono"; "2"; "18446744073709551616"; "3"] in
  ((7 <= length argv)%nat /\ stoul (argv_at argv 1) = inr 65
   /\ stoul (argv_at argv 2) = inr 66
   /\ drop 5 argv = ["Mono"; "2"] ++ "18446744073709551616" :: ["3"]
   /\ stoul "18446744073709551616" = inl out_of_range)
  /\ main 3 demo argv
     = Some (Terminated out_of_range
               (["uint8_t font = "; "{"]
                ++ concat (font_table demo [65; 66] 65 66 <$> [("Mono", 2)]))).
Proof.
  split; [repeat split; simpl; lia|].
  apply (main_out_of_range 3 demo
           ["FontRenderer"; "65"; "66"; "uint8_t"; "font";
            "Mono"; "2"; "18446744073709551616"; "3"] 65 66
           ["Mono"; "2"] ["3"] "18446744073709551616");
    [simpl; lia | reflexivity | reflexivity | lia | lia | simpl; lia | reflexivity | | reflexivity].
  repeat (apply Forall_cons_2 || apply Forall_nil_2).
  - left. reflexivity.
  - right. exists 2. split; [reflexivity|unfold Int.INT_MAX; lia].
Defined.



(** Below 255 the character loop is always left.  Once both range
    arguments parse and [to] is not 255, [main] comes to a return or to an
    exception of [std::stoul] on every fuel from 257 on, and always to the
    same outcome: 257 evaluations of the loop condition are the most the
    loop can need. *)
Theorem main_ends_below_255 (fuel : nat) (e : Engine) (argv : list string) (from to : Z) :
  (7 <= length argv)%nat ->
  stoul (argv_at argv 1) = inr from -> stoul (argv_at argv 2) = inr to ->
  to <> 255 -> (257 <= fuel)%nat ->
  exists outcome, main 257 e argv = Some outcome /\ main fuel e argv = Some outcome.
Proof.
  intros Hargc Hfrom Hto Hne Hfuel.
  pose proof (stoul_range _ _ Hfrom) as Hf. pose proof (stoul_range _ _ Hto) as Ht.
  rewrite (main_parsed 257 e argv from to), (main_parsed fuel e argv from to) by assumption.
  unfold main_after_parse. simpl.
  destruct (to_code from >? to_code to); [eexists; split; reflexivity|].
  pose proof (to_code_range from) as Hcf. pose proof (to_code_range to) as Hct.
  assert (Hct' : to_code to <= 254).
  { rewrite (to_code_cases to) in * by lia. destruct (Z.leb_spec to 255); lia. }
  rewrite !getCharacters_any_interval by lia.
  destruct (sequencer e _ (drop 5 argv) _ _) as [[exn out]|[desc' out]];
    eexists; split; reflexivity.
Qed.

Lemma main_ends_below_255_witness :
  let argv := ["FontRenderer"; "300"; "254"; "uint8_t"; "font"; "Mono"; "0"] in
  ((7 <= length argv)%nat /\ stoul (argv_at argv 1) = inr 300
   /\ stoul (argv_at argv 2) = inr 254 /\ 254 <> 255 /\ (257 <= 300)%nat)
  /\ exists outcome, main 257 demo argv = Some outcome /\ main 300 demo argv = Some outcome.
Proof.
  split; [repeat split; simpl; lia|].
  apply (main_ends_below_255 300 demo
           ["FontRenderer"; "300"; "254"; "uint8_t"; "font"; "Mono"; "0"] 300 254);
    [simpl; lia | reflexivity | reflexivity | lia | lia].
Defined.

(** ** Printed numbers read back as arguments *)

Lemma digits_of_uint_acc (d : Decimal.uint) :
  forall acc : positive,
    fold_left (fun acc d => acc * 10 + d)
      (leading_digits (NilEmpty.string_of_uint d)) (Z.pos acc)
    = Z.pos (Pos.of_uint_acc d acc).
Proof.
  induction d as [|d IH|d IH|d IH|d IH|d IH|d IH|d IH|d IH|d IH|d IH]; intros acc;
    [reflexivity|..];
    simpl; rewrite <- IH; f_equal; unfold digit_value; simpl N_of_ascii; lia.
Qed.

Lemma digits_of_uint (d : Decimal.uint) :
  numeral_value (leading_digits (NilEmpty.string_of_uint d)) = Z.of_N (Pos.of_uint d).
Proof.
  unfold numeral_value.
  induction d as [|d IH|d IH|d IH|d IH|d IH|d IH|d IH|d IH|d IH|d IH];
    [reflexivity|exact IH|..];
    simpl; rewrite <- digits_of_uint_acc; f_equal.
Qed.

Lemma numeral_of_positive (p : positive) :
  exists c rest,
    NilEmpty.string_of_uint (Pos.to_uint p) = String c rest
    /\ isdigit c = true
    /\ leading_digits (String c rest) <> []
    /\ numeral_value (leading_digits (String c rest)) = Z.pos p.
Proof.
  pose proof (Unsigned.to_uint_nonnil p) as Hnonnil.
  pose proof (digits_of_uint (Pos.to_uint p)) as Hvalue.
  rewrite Unsigned.of_to in Hvalue. simpl in Hvalue.
  destruct (Pos.to_uint p) as [|d|d|d|d|d|d|d|d|d|d]; [congruence|..];
    eexists; eexists; (split; [reflexivity|]); (split; [reflexivity|]);
    (split; [discriminate|exact Hvalue]).
Qed.

(** A number printed by the program, handed back to it as an argument, is
    read as the same number; a negative one is read modulo 2^64, the way
    [std::stoul] negates. *)
Lemma stoul_show_int (n : Z) :
  - Int.ULONG_MAX <= n <= Int.ULONG_MAX -> stoul (show_int n) = inr (Int.wrap_ulong n).
Proof.
  intros Hn. destruct n as [|p|p].
  - reflexivity.
  - destruct (numeral_of_positive p) as (c & rest & Hstr & Hc & Hne & Hval).
    assert (Hshow : show_int (Z.pos p) = String c rest).
    { unfold show_int. simpl. unfold NilZero.string_of_uint.
      destruct (Pos.to_uint p) eqn:Hd; try exact Hstr. simpl in Hstr. discriminate. }
    rewrite Hshow. unfold stoul. rewrite digit_first by exact Hc.
    destruct (leading_digits (String c rest)) as [|d ds] eqn:Hdigits; [congruence|].
    cbv zeta. rewrite Hval. destruct (Z.gtb_spec (Z.pos p) Int.ULONG_MAX); [lia|].
    f_equal. unfold Int.wrap_ulong. symmetry. apply Z.mod_small.
    unfold Int.ULONG_MAX in *. lia.
  - destruct (numeral_of_positive p) as (c & rest & Hstr & Hc & Hne & Hval).
    assert (Hshow : show_int (Z.neg p) = String "-"%char (String c rest)).
    { unfold show_int. simpl. unfold NilZero.string_of_uint.
      destruct (Pos.to_uint p) eqn:Hd; try (f_equal; exact Hstr).
      simpl in Hstr. discriminate. }
    rewrite Hshow. unfold stoul.
    change (split_sign (skip_spaces (String "-"%char (String c rest))))
      with (true, String c rest).
    cbv beta iota zeta.
    destruct (leading_digits (String c rest)) as [|d ds] eqn:Hdigits; [congruence|].
    cbv zeta. rewrite Hval. destruct (Z.gtb_spec (Z.pos p) Int.ULONG_MAX); [lia|].
    reflexivity.
Qed.

(** Every size the Font Tables can show is reachable: the size field of a
    table, handed back as a size token under the same name, gives a table
    of that very size, zero and negative sizes included. *)
Theorem printed_size_round_trip (e : Engine) (characters : list Z) (desc : FontDesc.t)
    (size : Z) :
  Int.in_int size -> FontDesc.name desc <> EmptyString ->
  sequencer_step e characters desc (show_int size)
  = inr (FontDesc.set_size desc size,
         font_table e characters (FontDesc.from desc) (FontDesc.to desc)
           (FontDesc.name desc, size)).
Proof.
  intros Hsize Hname. unfold sequencer_step.
  unfold Int.in_int, Int.INT_MIN, Int.INT_MAX in Hsize.
  rewrite stoul_show_int by (unfold Int.ULONG_MAX; lia).
  assert (Hwrap : Int.wrap_int (Int.wrap_ulong size) = size).
  { unfold Int.wrap_int, Int.wrap_ulong.
    destruct (Z.neg_nonneg_cases size) as [Hneg|Hpos].
    - rewrite <- (Z.mod_unique size 18446744073709551616 (-1) (size + 18446744073709551616))
        by lia.
      rewrite <- (Z.mod_unique (size + 18446744073709551616 + 2147483648) 4294967296
                    4294967296 (size + 2147483648)) by lia.
      lia.
    - rewrite (Z.mod_small size) by lia. rewrite Z.mod_small by lia. lia. }
  rewrite Hwrap. simpl.
  destruct (decide (FontDesc.name desc = EmptyString)); [contradiction|reflexivity].
Qed.

Lemma printed_size_round_trip_witness :
  let desc := {| FontDesc.name := "Mono"; FontDesc.size := 0;
                 FontDesc.from := 65; FontDesc.to := 65 |} in
  (Int.in_int (-7) /\ FontDesc.name desc <> EmptyString)
  /\ sequencer_step demo [65] desc "-7"
     = inr (FontDesc.set_size desc (-7), font_table demo [65] 65 65 ("Mono", -7)).
Proof.
  assert (Hint : Int.in_int (-7)) by (unfold Int.in_int, Int.INT_MIN, Int.INT_MAX; lia).
  split; [split; [exact Hint|discriminate]|].
  apply (printed_size_round_trip demo [65]
           {| FontDesc.name := "Mono"; FontDesc.size := 0;
              FontDesc.from := 65; FontDesc.to := 65 |} (-7) Hint).
  discriminate.
Defined.

(** The range fields of a Font Table, handed back as the [from] and [to]
    arguments, select the same range again. *)
Theorem printed_range_round_trip (fuel : nat) (e : Engine) (argv : list string)
    (from to : Z) :
  (7 <= length argv)%nat -> 0 <= from <= 255 -> 0 <= to <= 255 ->
  argv_at argv 1 = show_int from -> argv_at argv 2 = show_int to ->
  main fuel e argv = main_after_parse fuel e argv from to
  /\ to_code from = from /\ to_code to = to.
Proof.
  intros Hargc Hfrom Hto Harg1 Harg2.
  assert (Hwrap : forall n, 0 <= n <= 255 -> Int.wrap_ulong n = n)
    by (intros n Hn; unfold Int.wrap_ulong; apply Z.mod_small; lia).
  split; [|split].
  - apply main_parsed; [exact Hargc| |].
    + rewrite Harg1, stoul_show_int by (unfold Int.ULONG_MAX; lia). rewrite Hwrap; auto.
    + rewrite Harg2, stoul_show_int by (unfold Int.ULONG_MAX; lia). rewrite Hwrap; auto.
  - rewrite to_code_cases by lia. destruct (Z.leb_spec from 255); lia.
  - rewrite to_code_cases by lia. destruct (Z.leb_spec to 255); lia.
Qed.

Lemma printed_range_round_trip_witness :
  let argv := ["FontRenderer"; "33"; "127"; "uint8_t"; "font"; "Mono"; "10"] in
  ((7 <= length argv)%nat /\ 0 <= 33 <= 255 /\ 0 <= 127 <= 255
   /\ argv_at argv 1 = show_int 33 /\ argv_at argv 2 = show_int 127)
  /\ main 0 demo argv = main_after_parse 0 demo argv 33 127
  /\ to_code 33 = 33 /\ to_code 127 = 127.
Proof.
  split; [repeat split; simpl; lia|].
  apply (printed_range_round_trip 0 demo
           ["FontRenderer"; "33"; "127"; "uint8_t"; "font"; "Mono"; "10"] 33 127);
    [simpl; lia | lia | lia | reflexivity | reflexivity].
Defined.

(** ** Runs that end by an exception of [std::stoul] *)

Lemma length_string_append (s1 s2 : string) :
  String.length (s1 +:+ s2) = (String.length s1 + String.length s2)%nat.
Proof. induction s1 as [|c s1 IH]; simpl; [reflexivity|]. rewrite IH. reflexivity. Qed.

(** Every line of a Font Table begins with a tab. *)
Lemma appendFontBitmap_indented (e : Engine) (characters : list Z) (font : QFont)
    (desc : FontDesc.t) :
  Forall (fun line => exists rest, line = String "009"%char rest)
    (appendFontBitmap e characters font desc).
Proof.
  unfold appendFontBitmap. apply Forall_app. split; [|apply Forall_app; split].
  - unfold fontHeader. repeat constructor; eexists; reflexivity.
  - apply Forall_concat, Forall_fmap, Forall_forall. intros c _. simpl.
    unfold characterEntry. apply Forall_app. split; [|apply Forall_app; split].
    + repeat constructor; eexists; reflexivity.
    + apply Forall_fmap, Forall_forall. intros row _. eexists. reflexivity.
    + repeat constructor; eexists; reflexivity.
  - unfold fontFooter. repeat constructor; eexists; reflexivity.
Qed.

Lemma sequencer_prints_indented (e : Engine) (characters : list Z) (args : list string) :
  forall (desc : FontDesc.t) (out : list string),
  exists printed,
    Forall (fun line => exists rest, line = String "009"%char rest) printed
    /\ match sequencer e characters args desc out with
       | inl (_, out') => out' = out ++ printed
       | inr (_, out') => out' = out ++ printed
       end.
Proof.
  induction args as [|arg args IH]; intros desc out.
  - exists []. split; [constructor|]. simpl. rewrite app_nil_r. reflexivity.
  - simpl. destruct (sequencer_step e characters desc arg) as [exn|[desc1 printed1]] eqn:Hstep.
    + exists []. split; [constructor|]. rewrite app_nil_r. reflexivity.
    + assert (Hprinted1 : Forall (fun line => exists rest, line = String "009"%char rest)
                            printed1).
      { unfold sequencer_step in Hstep.
        destruct (stoul arg) as [[]|number]; [|discriminate|].
        - injection Hstep as _ <-. constructor.
        - simpl in Hstep. destruct (decide _); injection Hstep as _ <-;
            [constructor|apply appendFontBitmap_indented]. }
      destruct (IH desc1 (out ++ printed1)) as (printed & Hprinted & Hrun).
      exists (printed1 ++ printed). split; [apply Forall_app; split; assumption|].
      destruct (sequencer e characters args desc1 (out ++ printed1)) as [[exn out']|[d out']];
        rewrite Hrun, app_assoc; reflexivity.
Qed.

(** A run that [std::invalid_argument] or [std::out_of_range], the two
    exceptions of [std::stoul], has ended.  Either a range argument did not
    parse, and nothing was printed; or the exception is [std::out_of_range]
    from a numeral of the font list, and the opening lines and some
    tab-indented lines were printed.  In both cases the closing line of the
    array is missing from the output.  (A run whose [to] is 255 is not
    among them: it is ended by neither exception.) *)
Theorem main_terminated (fuel : nat) (e : Engine) (argv : list string) (exn : exception)
    (out : list string) :
  main fuel e argv = Some (Terminated exn out) ->
  (7 <= length argv)%nat
  /\ ((out = []
       /\ (stoul (argv_at argv 1) = inl exn
           \/ exists from, stoul (argv_at argv 1) = inr from
                           /\ stoul (argv_at argv 2) = inl exn))
      \/ (exn = out_of_range
          /\ (exists from to,
                stoul (argv_at argv 1) = inr from /\ stoul (argv_at argv 2) = inr to
                /\ to <> 255)
          /\ exists printed,
               out = openFontArray (argv_at argv 3) (argv_at argv 4) ++ printed
               /\ Forall (fun line => exists rest, line = String "009"%char rest) printed))
  /\ "};" ∉ out.
Proof.
  unfold main. destruct (Z.ltb_spec (Z.of_nat (length argv)) 7) as [Hlt|Hge]; [discriminate|].
  intros Hmain. split; [lia|].
  destruct (stoul (argv_at argv 1)) as [exn1|from] eqn:Hfrom.
  { injection Hmain as <- <-. split; [left; split; [reflexivity|left; reflexivity]|].
    apply not_elem_of_nil. }
  destruct (stoul (argv_at argv 2)) as [exn2|to] eqn:Hto.
  { injection Hmain as <- <-.
    split; [left; split; [reflexivity|right; exists from; split; reflexivity]|].
    apply not_elem_of_nil. }
  unfold main_after_parse in Hmain. simpl in Hmain.
  destruct (to_code from >? to_code to); [discriminate|].
  destruct (getCharacters fuel (to_code from) (to_code to)) as [characters|] eqn:Hchars;
    [|discriminate].
  assert (Hne : to <> 255).
  { intros ->. change (to_code 255) with 255 in Hchars.
    rewrite getCharacters_255 in Hchars by apply to_code_range. discriminate. }
  pose proof (sequencer_prefix e characters (drop 5 argv)
                {| FontDesc.name := EmptyString; FontDesc.size := 0;
                   FontDesc.from := to_code from; FontDesc.to := to_code to |}
                (openFontArray (argv_at argv 3) (argv_at argv 4))) as Happ.
  destruct (sequencer_prints_indented e characters (drop 5 argv)
              {| FontDesc.name := EmptyString; FontDesc.size := 0;
                 FontDesc.from := to_code from; FontDesc.to := to_code to |}
              (openFontArray (argv_at argv 3) (argv_at argv 4)))
    as (printed & Hprinted & Hrun).
  destruct (sequencer e characters (drop 5 argv) _ _) as [[exn' out']|[desc' out']];
    [|discriminate].
  injection Hmain as <- <-. destruct Happ as [-> _]. subst out'.
  split.
  { right. split; [reflexivity|]. split.
    - exists from, to. split; [reflexivity|split; [reflexivity|exact Hne]].
    - exists printed. split; [reflexivity|exact Hprinted]. }
  intros Hin. apply elem_of_app in Hin as [Hopen|Hin].
  - unfold openFontArray in Hopen.
    apply elem_of_cons in Hopen as [Hfirst|Hopen].
    + apply (f_equal String.length) in Hfirst.
      rewrite !length_string_append in Hfirst. simpl in Hfirst. lia.
    + apply list_elem_of_singleton in Hopen. discriminate.
  - rewrite Forall_forall in Hprinted. destruct (Hprinted _ Hin) as [rest Hrest].
    discriminate.
Qed.

Lemma main_terminated_witness :
  let argv := ["FontRenderer"; "65"; "65"; "uint8_t"; "font";
               "Mono"; "1"; "99999999999999999999"; "2"] in
  let out := openFontArray "uint8_t" "font" ++ font_table demo [65] 65 65 ("Mono", 1) in
  main 2 demo argv = Some (Terminated out_of_range out)
  /\ (7 <= length argv)%nat
  /\ "};" ∉ out.
Proof.
  split; [reflexivity|].
  destruct (main_terminated 2 demo
              ["FontRenderer"; "65"; "65"; "uint8_t"; "font";
               "Mono"; "1"; "99999999999999999999"; "2"]
              out_of_range
              (openFontArray "uint8_t" "font" ++ font_table demo [65] 65 65 ("Mono", 1))
              eq_refl) as (Hargc & _ & Hclose).
  split; [exact Hargc|exact Hclose].
Defined.
